(** * The review server ([server.js]): a shallow embedding and its contracts

    The server keeps two JSON documents (the restaurant profile and the
    review list) and a tree of uploaded images.  The handlers are modelled
    as state transformers over a record describing the disk; the values
    they handle are JSON documents, with [None] for JavaScript's
    [undefined].

    Numbers are exact rationals: a JSON numeral is a decimal fraction and
    the server only parses, compares and subtracts numbers, so binary
    rounding, overflow and the sign of zero are left out; the infinities
    are kept because the numeral [Infinity] denotes one.  Strings are byte
    strings holding the UTF-8 encoding of the JavaScript string. *)

From Stdlib Require Import QArith Lqa Ascii String DecimalString.
From stdpp Require Import gmap strings list sorting.

#[local] Set Warnings "-register-all".
#[local] Open Scope string_scope.
#[local] Open Scope Z_scope.

(** ** JSON documents and JavaScript values *)

Inductive json : Type :=
  | JNull
  | JBool (b : bool)
  | JNum (q : Q)
  | JStr (s : string)
  | JArr (l : list json)
  | JObj (m : gmap string json).

(** A JavaScript value the handlers can meet: [None] is [undefined]. *)
Abbreviation value := (option json).

(** Exceptions a handler can raise. *)
Inductive error : Type :=
  | CannotReadProperty (k : string)      (* x.k with x undefined or null *)
  | NotAFunction (k : string)            (* x.k(...) with x.k not callable *)
  | CannotConvertToPrimitive             (* ToPrimitive found no usable method *)
  | UploadError (msg : string)           (* new Error(msg) raised by the upload filter *)
  | MulterError (code : string).         (* multer's own limit errors *)

Inductive result (A : Type) : Type :=
  | Ok (a : A)
  | Throw (e : error).
Arguments Ok {A} a.
Arguments Throw {A} e.

Definition result_bind {A B} (r : result A) (k : A -> result B) : result B :=
  match r with
  | Ok a => k a
  | Throw e => Throw e
  end.

Notation "x <-! r ; k" := (result_bind r (fun x => k))
  (at level 100, r at next level, right associativity).

(** The values of the number type that the server computes with. *)
Inductive number : Type :=
  | NaN
  | Inf (negative : bool)
  | Fin (q : Q).

Module JS.

(** *** ToBoolean and the [||] idiom *)

Definition truthy (j : json) : bool :=
  match j with
  | JNull => false
  | JBool b => b
  | JNum q => negb (Qeq_bool q 0)
  | JStr s => negb (String.eqb s "")
  | JArr _ | JObj _ => true
  end.

Definition to_boolean (v : value) : bool :=
  match v with
  | Some j => truthy j
  | None => false
  end.

(** [a || b] where [b] is a JSON constant. *)
Definition or (a : value) (b : json) : json :=
  match a with
  | Some j => if truthy j then j else b
  | None => b
  end.

(** [p || d] for the result [p] of [parseInt] ([None] is NaN). *)
Definition or_int (p : option Z) (d : Z) : Z :=
  match p with
  | Some n => if n =? 0 then d else n
  | None => d
  end.

(** *** Property access

    [field k j] is [j.k] for a [j] that is neither [undefined] nor
    [null].  Only objects parsed from JSON carry the property names the
    server reads; strings, numbers, booleans and arrays answer
    [undefined] for all of them. *)

Definition field (k : string) (j : json) : value :=
  match j with
  | JObj m => m !! k
  | _ => None
  end.

Definition prop (k : string) (v : value) : result value :=
  match v with
  | None | Some JNull => Throw (CannotReadProperty k)
  | Some j => Ok (field k j)
  end.

Definition isArray (v : value) : option (list json) :=
  match v with
  | Some (JArr l) => Some l
  | _ => None
  end.

(** *** Strings

    [trimStart] drops leading StrWhiteSpaceChar code points: TAB, LF, VT,
    FF, CR, SP, U+00A0, U+1680, U+2000..U+200A, U+2028, U+2029, U+202F,
    U+205F, U+3000 and U+FEFF, here in their UTF-8 encodings. *)

Definition code (a : ascii) : N := N_of_ascii a.

Definition ascii_space (c : N) : bool :=
  ((9 <=? c) && (c <=? 13) || (c =? 32))%N.

Definition space2 (c d : N) : bool :=
  ((c =? 194) && (d =? 160))%N.

Definition space3 (c d e : N) : bool :=
  ((c =? 225) && (d =? 154) && (e =? 128)
   || (c =? 226) && (d =? 128)
      && ((128 <=? e) && (e <=? 138) || (e =? 168) || (e =? 169) || (e =? 175))
   || (c =? 226) && (d =? 129) && (e =? 159)
   || (c =? 227) && (d =? 128) && (e =? 128)
   || (c =? 239) && (d =? 187) && (e =? 191))%N.

Fixpoint trimStart (s : string) : string :=
  match s with
  | String a s1 =>
      if ascii_space (code a) then trimStart s1
      else
        match s1 with
        | String b s2 =>
            if space2 (code a) (code b) then trimStart s2
            else
              match s2 with
              | String c s3 =>
                  if space3 (code a) (code b) (code c) then trimStart s3 else s
              | EmptyString => s
              end
        | EmptyString => s
        end
  | EmptyString => s
  end.

(** [strip p s] is the rest of [s] after the prefix [p], if [s] starts
    with [p]. *)
Fixpoint strip (p s : string) : option string :=
  match p, s with
  | EmptyString, _ => Some s
  | String a p', String b s' => if Ascii.eqb a b then strip p' s' else None
  | String _ _, EmptyString => None
  end.

Definition startsWith (p s : string) : bool :=
  match strip p s with Some _ => true | None => false end.

(** [String.prototype.includes]. *)
Fixpoint str_includes (needle s : string) : bool :=
  startsWith needle s
  || match s with
     | String _ s' => str_includes needle s'
     | EmptyString => false
     end.

(** [toLowerCase], on the ASCII letters.  The server only compares the
    result with ASCII extensions, and no other character lower-cases to
    a letter of those. *)
Definition lower (a : ascii) : ascii :=
  let c := code a in
  if ((65 <=? c) && (c <=? 90))%N then ascii_of_N (c + 32) else a.

Fixpoint toLowerCase (s : string) : string :=
  match s with
  | String a s' => String (lower a) (toLowerCase s')
  | EmptyString => EmptyString
  end.

(** *** parseInt

    With no radix argument: leading white space is skipped, one sign is
    read, a [0x] or [0X] prefix selects radix 16, and the longest run of
    digits of the radix is the value; no digit at all gives NaN
    ([None]). *)

Definition digit_value (a : ascii) : option N :=
  let c := code a in
  if ((48 <=? c) && (c <=? 57))%N then Some (c - 48)%N
  else if ((97 <=? c) && (c <=? 122))%N then Some (c - 87)%N
  else if ((65 <=? c) && (c <=? 90))%N then Some (c - 55)%N
  else None.

Definition digit_in (radix : N) (a : ascii) : option N :=
  match digit_value a with
  | Some d => if (d <? radix)%N then Some d else None
  | None => None
  end.

Fixpoint parse_digits (radix : N) (acc : option N) (s : string) : option N :=
  match s with
  | String a s' =>
      match digit_in radix a with
      | Some d => parse_digits radix (Some (default 0 acc * radix + d)%N) s'
      | None => acc
      end
  | EmptyString => acc
  end.

(** The sign of a numeral: [(negative, rest)]. *)
Definition read_sign (s : string) : bool * string :=
  match s with
  | String "-" s' => (true, s')
  | String "+" s' => (false, s')
  | _ => (false, s)
  end.

Definition apply_sign (negative : bool) (n : N) : Z :=
  if negative then - Z.of_N n else Z.of_N n.

Definition parseInt_string (s : string) : option Z :=
  let '(negative, s1) := read_sign (trimStart s) in
  let '(radix, s2) :=
    match s1 with
    | String "0" (String "x" r) | String "0" (String "X" r) => (16%N, r)
    | _ => (10%N, s1)
    end in
  apply_sign negative <$> parse_digits radix None s2.

Definition apply_sign_Q (negative : bool) (q : Q) : Q :=
  if negative then Qopp q else q.

(** *** Number::toString

    A number is printed from its decimal expansion [m / 10^s] with the
    digits [sig] of [m] (no trailing zero) and [n] digits before the
    decimal point: plain digits for 0 < n <= 21, a leading [0.] for
    -6 < n <= 0, exponent notation otherwise. *)

Definition digits (n : N) : string := NilZero.string_of_uint (N.to_uint n).

Fixpoint decimal_of (fuel : nat) (a d : N) (s : nat) : N * nat :=
  match fuel with
  | O => ((a / d)%N, s)
  | S fuel' =>
      if (a mod d =? 0)%N then ((a / d)%N, s)
      else decimal_of fuel' (a * 10)%N d (S s)
  end.

Fixpoint drop_trailing_zeros (s : string) : string :=
  match s with
  | String a s' =>
      match drop_trailing_zeros s' with
      | EmptyString => if Ascii.eqb a "0" then EmptyString else String a EmptyString
      | r => String a r
      end
  | EmptyString => EmptyString
  end.

Fixpoint zeros (n : nat) : string :=
  match n with
  | O => ""
  | S n' => String "0" (zeros n')
  end.

Definition number_to_string (q : Q) : string :=
  let a := Z.abs_N (Qnum q) in
  let d := Npos (Qden q) in
  if (a =? 0)%N then "0"
  else
    let '(m, s) := decimal_of (S (N.to_nat (N.log2 d))) a d 0 in
    let all := digits m in
    let sig := drop_trailing_zeros all in
    let k := Z.of_nat (String.length sig) in
    let n := Z.of_nat (String.length all) - Z.of_nat s in
    let body :=
      if (k <=? n) && (n <=? 21) then sig +:+ zeros (Z.to_nat (n - k))
      else if (0 <? n) && (n <=? 21) then
        substring 0 (Z.to_nat n) sig +:+ "." +:+ substring (Z.to_nat n) (Z.to_nat (k - n)) sig
      else if (-6 <? n) && (n <=? 0) then "0." +:+ zeros (Z.to_nat (- n)) +:+ sig
      else
        let e := n - 1 in
        (if k =? 1 then sig
         else substring 0 1 sig +:+ "." +:+ substring 1 (Z.to_nat (k - 1)) sig)
        +:+ "e" +:+ (if e <? 0 then "-" else "+") +:+ digits (Z.abs_N e) in
    if Qnum q <? 0 then "-" +:+ body else body.

(** *** ToString

    An array prints as its elements joined by commas, [null] elements as
    the empty string.  An object parsed from JSON prints as
    [[object Object]] through [Object.prototype.toString]; an own
    [toString] entry hides that method and is not callable, so the
    conversion throws. *)

Fixpoint to_string (j : json) : result string :=
  match j with
  | JNull => Ok "null"
  | JBool b => Ok (if b then "true" else "false")
  | JNum q => Ok (number_to_string q)
  | JStr s => Ok s
  | JArr l =>
      (fix join (l : list json) : result string :=
         match l with
         | [] => Ok ""
         | x :: l' =>
             sx <-! match x with JNull => Ok "" | _ => to_string x end;
             match l' with
             | [] => Ok sx
             | _ :: _ => rest <-! join l'; Ok (sx +:+ "," +:+ rest)
             end
         end) l
  | JObj m =>
      match m !! "toString" with
      | Some _ => Throw CannotConvertToPrimitive
      | None => Ok "[object Object]"
      end
  end.

Definition to_string_value (v : value) : result string :=
  match v with
  | Some j => to_string j
  | None => Ok "undefined"
  end.

Definition parseInt (v : value) : result (option Z) :=
  s <-! to_string_value v; Ok (parseInt_string s).

(** *** Decimal literals, parseFloat and ToNumber *)

(** The digits of the radix at the head of [s]: their value continuing
    [acc], how many there are, and the rest. *)
Fixpoint read_digits (radix acc : N) (cnt : nat) (s : string) : N * nat * string :=
  match s with
  | String a s' =>
      match digit_in radix a with
      | Some d => read_digits radix (acc * radix + d)%N (S cnt) s'
      | None => (acc, cnt, s)
      end
  | EmptyString => (acc, cnt, s)
  end.

(** [m * 10^e] *)
Definition scale10 (m : N) (e : Z) : Q :=
  Qred (if 0 <=? e then Qmake (Z.of_N m * 10 ^ e) 1
        else Qmake (Z.of_N m) (Z.to_pos (10 ^ (- e)))).

(** An unsigned StrDecimalLiteral at the head of [s], other than
    [Infinity]: digits, an optional fraction, an optional exponent, with
    a digit before or after the point. *)
Definition read_decimal (s : string) : option (Q * string) :=
  let '(ip, ni, s1) := read_digits 10 0 0 s in
  let '(m, nf, s2) :=
    match s1 with
    | String "." r => read_digits 10 ip 0 r
    | _ => (ip, O, s1)
    end in
  if (ni + nf =? 0)%nat then None
  else
    let '(e, s3) :=
      match s2 with
      | String "e" r | String "E" r =>
          let '(negative, r1) := read_sign r in
          let '(ev, ne, r2) := read_digits 10 0 0 r1 in
          if (ne =? 0)%nat then (0, s2) else (apply_sign negative ev, r2)
      | _ => (0, s2)
      end in
    Some (scale10 m (e - Z.of_nat nf), s3).

Definition parseFloat_string (s : string) : number :=
  let '(negative, s1) := read_sign (trimStart s) in
  if startsWith "Infinity" s1 then Inf negative
  else
    match read_decimal s1 with
    | Some (q, _) => Fin (apply_sign_Q negative q)
    | None => NaN
    end.

(** [parseFloat(x)].  A finite number reads back from its own numeral:
    Number::toString prints the shortest numeral that denotes it. *)
Definition parseFloat (v : value) : result number :=
  match v with
  | Some (JNum q) => Ok (Fin q)
  | _ => s <-! to_string_value v; Ok (parseFloat_string s)
  end.

Definition isNaN (x : number) : bool :=
  match x with NaN => true | _ => false end.

(** A literal must be followed by white space only. *)
Definition only_space_then (rest : string) (x : number) : number :=
  if String.eqb (trimStart rest) "" then x else NaN.

Definition read_radix (radix : N) (s : string) : number :=
  let '(n, cnt, rest) := read_digits radix 0 0 s in
  if (cnt =? 0)%nat then NaN else only_space_then rest (Fin (inject_Z (Z.of_N n))).

(** StringToNumber. *)
Definition string_to_number (s : string) : number :=
  match trimStart s with
  | EmptyString => Fin 0
  | String "0" (String "x" r) | String "0" (String "X" r) => read_radix 16 r
  | String "0" (String "o" r) | String "0" (String "O" r) => read_radix 8 r
  | String "0" (String "b" r) | String "0" (String "B" r) => read_radix 2 r
  | s0 =>
      let '(negative, s1) := read_sign s0 in
      match strip "Infinity" s1 with
      | Some rest => only_space_then rest (Inf negative)
      | None =>
          match read_decimal s1 with
          | Some (q, rest) => only_space_then rest (Fin (apply_sign_Q negative q))
          | None => NaN
          end
      end
  end.

Definition to_number (v : value) : result number :=
  match v with
  | None => Ok NaN
  | Some JNull => Ok (Fin 0)
  | Some (JBool b) => Ok (Fin (if b then 1 else 0))
  | Some (JNum q) => Ok (Fin q)
  | Some (JStr s) => Ok (string_to_number s)
  | Some j => s <-! to_string j; Ok (string_to_number s)
  end.

(** [x - y] on numbers. *)
Definition sub (x y : number) : number :=
  match x, y with
  | NaN, _ | _, NaN => NaN
  | Inf a, Inf b => if Bool.eqb a b then NaN else Inf a
  | Inf a, Fin _ => Inf a
  | Fin _, Inf b => Inf (negb b)
  | Fin p, Fin q => Fin (p - q)
  end.

(** [x < 0] *)
Definition negative (x : number) : bool :=
  match x with
  | NaN => false
  | Inf a => a
  | Fin q => match (q ?= 0)%Q with Lt => true | _ => false end
  end.

End JS.

(** ** The review sorter *)

Module Sorter.
Import JS.

(** [x.includes(needle)] for a string constant [needle]: the method
    exists on strings (substring test) and on arrays (membership), and
    on no other JSON value. *)
Definition includes (needle : string) (j : json) : result bool :=
  match j with
  | JStr s => Ok (str_includes needle s)
  | JArr l =>
      Ok (existsb (fun x => match x with JStr t => String.eqb t needle | _ => false end) l)
  | _ => Throw (NotAFunction "includes")
  end.

(** [parseInt(timeStr) || 0 + 100] groups as
    [parseInt(timeStr) || (0 + 100)]: [+] binds tighter than [||]. *)
Definition getTimeScore (timeStr : value) : result Z :=
  match timeStr with
  | None => Ok 0
  | Some t =>
      if negb (truthy t) then Ok 0
      else
        weeks <-! includes "周" t;
        if weeks : bool then p <-! parseInt timeStr; Ok (or_int p (0 + 100))
        else
          months <-! includes "月" t;
          if months : bool then p <-! parseInt timeStr; Ok (or_int p (0 + 50))
          else
            years <-! includes "年" t;
            if years : bool then p <-! parseInt timeStr; Ok (or_int p 0)
            else Ok 0
  end.

(** *** Array.prototype.sort

    The comparator is called as [comparefn x y] and may throw; a NaN
    answer counts as +0.  The model is the stable insertion sort: each
    element, in input order, goes behind the elements it does not
    precede.  ECMAScript requires a stable sort, so for a consistent
    comparator every engine returns this list; for other comparators the
    order is implementation-defined and the model fixes one. *)

Section array_sort.
Context {A : Type} (comparefn : A -> A -> result number).

Fixpoint sort_insert (x : A) (sorted : list A) : result (list A) :=
  match sorted with
  | [] => Ok [x]
  | y :: ys =>
      v <-! comparefn x y;
      if negative v then Ok (x :: y :: ys)
      else ys' <-! sort_insert x ys; Ok (y :: ys')
  end.

Fixpoint sort_from (sorted rest : list A) : result (list A) :=
  match rest with
  | [] => Ok sorted
  | x :: rest' => sorted' <-! sort_insert x sorted; sort_from sorted' rest'
  end.

Definition array_sort (l : list A) : result (list A) := sort_from [] l.
End array_sort.

(** The three comparators of [GET /api/comments]. *)
Definition by_time_newest (a b : json) : result number :=
  ta <-! prop "time" (Some a);
  aTimeScore <-! getTimeScore ta;
  tb <-! prop "time" (Some b);
  bTimeScore <-! getTimeScore tb;
  Ok (Fin (inject_Z (bTimeScore - aTimeScore))).

Definition by_rating_desc (a b : json) : result number :=
  rb <-! prop "rating" (Some b);
  ra <-! prop "rating" (Some a);
  nb <-! to_number rb;
  na <-! to_number ra;
  Ok (sub nb na).

Definition by_rating_asc (a b : json) : result number :=
  ra <-! prop "rating" (Some a);
  rb <-! prop "rating" (Some b);
  na <-! to_number ra;
  nb <-! to_number rb;
  Ok (sub na nb).

(** The [switch] on the sort key; any other key leaves the order. *)
Definition sort_comments (sortType : json) (comments : list json) : result (list json) :=
  match sortType with
  | JStr key =>
      if String.eqb key "time/newest" then array_sort by_time_newest comments
      else if String.eqb key "rating/desc" then array_sort by_rating_desc comments
      else if String.eqb key "rating/asc" then array_sort by_rating_asc comments
      else Ok comments
  | _ => Ok comments
  end.

End Sorter.

(** ** The disk *)

(** What the handlers see of the file system.  [data/comments.json] is
    only ever written by the server with an array (the seed, the
    [Array.isArray] guard of PUT, and the arrays POST and DELETE read
    back), so the model keeps the parsed array; [None] stands for a file
    that is missing or does not parse.  [files] are the regular files
    under absolute paths, [writable] tells whether [fs.writeFileSync]
    succeeds, [dirname] is [__dirname]. *)
Record disk : Type := Disk {
  restaurant_json : option json;
  comments_json : option (list json);
  files : gset string;
  writable : bool;
  dirname : string
}.

Module Store.
Import JS.

Definition set_restaurant (data : json) (d : disk) : disk :=
  Disk (Some data) (comments_json d) (files d) (writable d) (dirname d).

Definition set_comments (data : list json) (d : disk) : disk :=
  Disk (restaurant_json d) (Some data) (files d) (writable d) (dirname d).

Definition set_files (fs : gset string) (d : disk) : disk :=
  Disk (restaurant_json d) (comments_json d) fs (writable d) (dirname d).


Definition readJsonFile_comments (d : disk) : json :=
  match comments_json d with
  | Some l => JArr l
  | None => JNull
  end.

(** [writeJsonFile]: [store] is the effect of the write on the disk. *)
Definition writeJsonFile (store : disk -> disk) (d : disk) : bool * disk :=
  if writable d then (true, store d) else (false, d).

(** *** path.resolve (POSIX) *)

Fixpoint split_path (cur s : string) : list string :=
  match s with
  | String a s' =>
      if Ascii.eqb a "/" then cur :: split_path "" s'
      else split_path (cur +:+ String a "") s'
  | EmptyString => [cur]
  end.

Definition normalize_step (acc : list string) (seg : string) : list string :=
  if String.eqb seg "" || String.eqb seg "." then acc
  else if String.eqb seg ".." then removelast acc
  else acc ++ [seg].

Fixpoint join_path (segs : list string) : string :=
  match segs with
  | [] => ""
  | [x] => x
  | x :: rest => x +:+ "/" +:+ join_path rest
  end.

(** [path.resolve(from, to)] for an absolute [from]. *)
Definition path_resolve (from to : string) : string :=
  let full := if startsWith "/" to then to else from +:+ "/" +:+ to in
  "/" +:+ join_path (foldl normalize_step [] (split_path "" full)).

(** [deleteFileIfExist]: a path that is not a string makes
    [path.resolve] throw inside the [try], which answers [false]. *)
Definition deleteFileIfExist (filePath : json) (d : disk) : bool * disk :=
  match filePath with
  | JStr p =>
      let fullPath := path_resolve (dirname d) p in
      if decide (fullPath ∈ files d)
      then (true, set_files (files d ∖ {[ fullPath ]}) d)
      else (false, d)
  | _ => (false, d)
  end.

(** [paths.forEach(p => deleteFileIfExist(p))] *)
Definition delete_each (paths : list json) (d : disk) : disk :=
  foldl (fun d p => (deleteFileIfExist p d).2) d paths.

End Store.

(** ** Responses *)

(** [res.json({code, msg, data})], or the response Express produces by
    itself (status 500, no envelope) when an exception leaves the handler
    or a middleware passes an error on. *)
Inductive response : Type :=
  | Envelope (code : Z) (msg : string) (data : value)
  | Failure (e : error).

Definition obj (fields : list (string * json)) : json := JObj (list_to_map fields).

Definition num (z : Z) : json := JNum (inject_Z z).

(** ** The endpoints *)

Module Api.
Import JS Store.


(** [delete x.k] *)
Definition delete_field (k : string) (j : json) : json :=
  match j with
  | JObj m => JObj (delete k m)
  | _ => j
  end.

(** The rating of the saved profile:
    [isNaN(parseFloat(r)) ? 4.6 : parseFloat(r)].  An infinite rating is
    written by [JSON.stringify] as [null], in the file and in the
    response alike. *)
Definition rating_or_default (r : number) : json :=
  if isNaN r then JNum (46 # 10)
  else match r with
       | Fin q => JNum q
       | _ => JNull
       end.

Definition finalConfig (newConfig : json) (rating : number) : json :=
  obj [ ("name", JS.or (field "name" newConfig) (JStr "The Wine Shop"));
        ("rating", rating_or_default rating);
        ("addr", JS.or (field "addr" newConfig) (JStr "Bruckenstr. 35, 60364 Frankfurt am Main"));
        ("phone", JS.or (field "phone" newConfig) (JStr "+089 661 2744"));
        ("realUrl", JS.or (field "realUrl" newConfig) (JStr "https://maps.google.com/"));
        ("type", JS.or (field "type" newConfig) (JStr "Wine Shop"));
        ("status", JS.or (field "status" newConfig) (JStr "Closed"));
        ("intro", JS.or (field "intro" newConfig) (JStr "No introduction available"));
        ("icon", JS.or (field "icon" newConfig) (JStr ""));
        ("images", JArr (default [] (isArray (field "images" newConfig)))) ].

(** *** POST /api/restaurant *)
Definition post_restaurant (body : value) (d : disk) : response * disk :=
  if negb (to_boolean body) then
    (Envelope 400 "Configuration data cannot be empty" None, d)
  else
    let newConfig0 := default JNull body in
    let '(newConfig, d1) :=
      match isArray (field "deletedImages" newConfig0) with
      | Some deletedImages =>
          (delete_field "deletedImages" newConfig0, delete_each deletedImages d)
      | None => (newConfig0, d)
      end in
    match parseFloat (field "rating" newConfig) with
    | Throw e => (Failure e, d1)
    | Ok rating =>
        let final := finalConfig newConfig rating in
        let '(isSuccess, d2) := writeJsonFile (set_restaurant final) d1 in
        if isSuccess : bool then
          (Envelope 200 "Configuration saved successfully" (Some final), d2)
        else
          (Envelope 500 "Configuration save failed, please check server permissions" None, d2)
    end.

(** [readJsonFile(COMMENTS_FILE) || []] *)
Definition load_comments (d : disk) : list json :=
  match JS.or (Some (readJsonFile_comments d)) (JArr []) with
  | JArr l => l
  | _ => []
  end.

(** *** GET /api/comments?sort=... *)
Definition get_comments (sort : value) (d : disk) : response * disk :=
  let comments := load_comments d in
  let sortType := JS.or sort (JStr "") in
  match Sorter.sort_comments sortType comments with
  | Ok sorted => (Envelope 200 "success" (Some (JArr sorted)), d)
  | Throw e => (Failure e, d)
  end.

(** *** PUT /api/comments *)
Definition put_comments (body : value) (d : disk) : response * disk :=
  match isArray body with
  | None => (Envelope 400 "Comments data must be an array" None, d)
  | Some newComments =>
      let '(isSuccess, d1) := writeJsonFile (set_comments newComments) d in
      if isSuccess : bool then
        (Envelope 200 "Comments updated successfully" (Some (JArr newComments)), d1)
      else (Envelope 500 "Comments update failed" None, d1)
  end.

Definition commentToAdd (newComment : json) (rating : option Z) : json :=
  obj [ ("name", JS.or (field "name" newComment) (JStr "Guest"));
        ("userAvatar", JS.or (field "userAvatar" newComment) (JStr ""));
        ("label", JS.or (field "label" newComment) (JStr ""));
        ("reviewCount", JS.or (field "reviewCount" newComment) (JStr "0 reviews"));
        ("photoCount", JS.or (field "photoCount" newComment) (JStr "0 photos"));
        ("rating", num (or_int rating 5));
        ("time", JS.or (field "time" newComment) (JStr "Just now"));
        ("content", default JNull (field "content" newComment));
        ("reviewImages", JArr (default [] (isArray (field "reviewImages" newComment))));
        ("isUserAdd", JS.or (field "isUserAdd" newComment) (JBool true));
        ("likeCount", num 0);
        ("isLiked", JBool false) ].

(** *** POST /api/comments *)
Definition post_comment (body : value) (d : disk) : response * disk :=
  let newComment := default JNull body in
  if negb (to_boolean body)
     || negb (to_boolean (field "content" newComment))
     || negb (to_boolean (field "rating" newComment))
  then (Envelope 400 "Comment content and rating cannot be empty" None, d)
  else
    let comments := load_comments d in
    match parseInt (field "rating" newComment) with
    | Throw e => (Failure e, d)
    | Ok rating =>
        let added := commentToAdd newComment rating in
        let comments' := added :: comments in
        let '(isSuccess, d1) := writeJsonFile (set_comments comments') d in
        if isSuccess : bool then
          (Envelope 200 "Comment added successfully" (Some added), d1)
        else (Envelope 500 "Comment save failed" None, d1)
    end.

(** [index < 0 || index >= length]: both comparisons are false for NaN. *)
Definition invalid_index (index : option Z) (length : nat) : bool :=
  match index with
  | Some i => (i <? 0) || (i >=? Z.of_nat length)
  | None => false
  end.

(** [comments[index]] *)
Definition at_index (index : option Z) (comments : list json) : value :=
  match index with
  | Some i => if i <? 0 then None else comments !! Z.to_nat i
  | None => None
  end.

(** [comments.splice(index, 1)]: the start is clamped into the array,
    NaN counting as 0. *)
Definition splice1 (index : option Z) (comments : list json) : list json :=
  let len := Z.of_nat (length comments) in
  let start :=
    match index with
    | Some i => if i <? 0 then Z.max (len + i) 0 else Z.min i len
    | None => 0
    end in
  delete (Z.to_nat start) comments.

(** *** DELETE /api/comments/:index *)
Definition delete_comment (index_param : string) (d : disk) : response * disk :=
  let index := parseInt_string index_param in
  let comments := load_comments d in
  if invalid_index index (length comments) then
    (Envelope 400 "Invalid comment index" None, d)
  else
    let commentToDelete := at_index index comments in
    match prop "reviewImages" commentToDelete with
    | Throw e => (Failure e, d)
    | Ok reviewImages =>
        let d1 :=
          match isArray reviewImages with
          | Some paths => delete_each paths d
          | None => d
          end in
        match prop "userAvatar" commentToDelete with
        | Throw e => (Failure e, d1)
        | Ok userAvatar =>
            let d2 :=
              if to_boolean userAvatar
              then (deleteFileIfExist (default JNull userAvatar) d1).2
              else d1 in
            let comments' := splice1 index comments in
            let '(isSuccess, d3) := writeJsonFile (set_comments comments') d2 in
            if isSuccess : bool then
              (Envelope 200 "Comment deleted successfully" (Some (JArr comments')), d3)
            else (Envelope 500 "Comment deletion failed" None, d3)
        end
    end.

End Api.

(** ** Uploads *)

Module Upload.
Import JS Store.

(** One file part of a multipart request, as multer hands it to the
    callbacks: [originalname] is the base name busboy extracted from the
    part header, [stamp] is the text
    [`${Date.now()}-${Math.random().toString(36).substr(2, 8)}`] drawn
    when the file is named. *)
Record upload : Type := {
  fieldname : string;
  originalname : string;
  size : N;
  stamp : string
}.

(** The last path component, trailing slashes dropped. *)
Definition last_segment (path : string) : string :=
  default "" (last (filter (fun seg => negb (String.eqb seg "")) (split_path "" path))).

(** The suffix of [s] that starts at its last dot. *)
Fixpoint from_last_dot (s : string) : option string :=
  match s with
  | String a s' =>
      match from_last_dot s' with
      | Some e => Some e
      | None => if Ascii.eqb a "." then Some s else None
      end
  | EmptyString => None
  end.

(** [path.extname]: from the last dot of the last component, unless that
    dot is its first character or the component is [..]. *)
Definition extname (path : string) : string :=
  match last_segment path with
  | String a rest as seg =>
      if String.eqb seg ".." then "" else default "" (from_last_dot rest)
  | EmptyString => ""
  end.

(** [s] without the suffix [suffix], if it ends with it. *)
Fixpoint strip_suffix (suffix s : string) : option string :=
  if String.eqb s suffix then Some ""
  else match s with
       | String a s' => String a <$> strip_suffix suffix s'
       | EmptyString => None
       end.

(** [path.basename(path, suffix)] *)
Definition basename (path suffix : string) : string :=
  if String.eqb suffix path then ""
  else
    let base := last_segment path in
    match strip_suffix suffix base with
    | Some "" | None => base
    | Some stem => stem
    end.

Definition allowedExts : list string := [".jpg"; ".jpeg"; ".png"; ".gif"; ".webp"].

(** [fileFilter]: [cb(null, true)] is [Ok true], [cb(new Error(..), false)]
    is the error. *)
Definition fileFilter (file : upload) : result bool :=
  let ext := toLowerCase (extname (originalname file)) in
  if existsb (String.eqb ext) allowedExts then Ok true
  else Throw (UploadError "❌ 仅支持以下格式: .jpg, .jpeg, .png, .gif, .webp").

(** [storage.destination] *)
Definition destination (root : string) (file : upload) : result string :=
  let uploadRoot := path_resolve root "uploads" in
  if String.eqb (fieldname file) "icon" then Ok (path_resolve uploadRoot "icons")
  else if String.eqb (fieldname file) "images" then Ok (path_resolve uploadRoot "images")
  else if String.eqb (fieldname file) "reviewImages" then
    Ok (path_resolve uploadRoot "review-images")
  else if String.eqb (fieldname file) "userAvatar" then Ok (path_resolve uploadRoot "avatars")
  else Throw (UploadError ("❌ Unsupported file type: " +:+ fieldname file)).

(** [storage.filename] *)
Definition filename (file : upload) : string :=
  let ext := toLowerCase (extname (originalname file)) in
  let baseName := basename (originalname file) ext in
  baseName +:+ "-" +:+ stamp file +:+ ext.

Definition limits_fileSize : N := 5 * 1024 * 1024.
Definition limits_files : nat := 10.

(** A file multer has written: the name the handler sees and the path on
    disk. *)
Record stored : Type := { stored_name : string; stored_path : string }.

(** multer running over the file parts of a request that expects up to
    [filesLeft] files in [field]: the files written so far and the error
    that stopped it, if any.  A part counts against the limit of ten
    files, is ignored when it has no file name, must be in the expected
    field and within its count, must pass [fileFilter], and must not
    exceed the size limit. *)
Fixpoint multer_receive (root field : string) (filesLeft slots : nat)
    (parts : list upload) (written : list stored) : list stored * option error :=
  match parts with
  | [] => (written, None)
  | file :: rest =>
      match slots with
      | O => (written, Some (MulterError "LIMIT_FILE_COUNT"))
      | S slots' =>
          if String.eqb (originalname file) "" then
            multer_receive root field filesLeft slots' rest written
          else
            match filesLeft with
            | O => (written, Some (MulterError "LIMIT_UNEXPECTED_FILE"))
            | S filesLeft' =>
                if negb (String.eqb (fieldname file) field) then
                  (written, Some (MulterError "LIMIT_UNEXPECTED_FILE"))
                else
                  match fileFilter file with
                  | Throw e => (written, Some e)
                  | Ok false => multer_receive root field filesLeft' slots' rest written
                  | Ok true =>
                      match destination root file with
                      | Throw e => (written, Some e)
                      | Ok dir =>
                          let out :=
                            {| stored_name := filename file;
                               stored_path := dir +:+ "/" +:+ filename file |} in
                          if (limits_fileSize <? size file)%N then
                            ((written ++ [out])%list, Some (MulterError "LIMIT_FILE_SIZE"))
                          else
                            multer_receive root field filesLeft' slots' rest (written ++ [out])%list
                      end
                  end
            end
      end
  end.

(** A route [app.post(path, upload.single(field) | upload.array(field, n),
    handler)].  When multer stops with an error it removes the files it
    wrote and passes the error to Express; the handler does not run. *)
Definition route (field : string) (maxCount : nat) (handler : list stored -> response)
    (parts : list upload) (d : disk) : response * disk :=
  let '(written, err) := multer_receive (dirname d) field maxCount limits_files parts [] in
  let paths : gset string := list_to_set (stored_path <$> written) in
  match err with
  | Some e => (Failure e, set_files (files d ∖ paths) d)
  | None => (handler written, set_files (files d ∪ paths) d)
  end.

(** [.replace(/\\/g, '/')] *)
Fixpoint slashes (s : string) : string :=
  match s with
  | String a s' => String (if Ascii.eqb a "\" then "/"%char else a) (slashes s')
  | EmptyString => EmptyString
  end.

(** [path.join('uploads', dir, name).replace(/\\/g, '/')] for a base
    name [name]. *)
Definition web_path (dir name : string) : string :=
  slashes ("uploads/" +:+ dir +:+ "/" +:+ name).

Definition count (files : list stored) : string := digits (N.of_nat (length files)).

(** *** POST /api/upload/icon *)
Definition upload_icon : list upload -> disk -> response * disk :=
  route "icon" 1 (fun files =>
    match files with
    | [] => Envelope 400 "Please select an icon file to upload" None
    | file :: _ =>
        Envelope 200 "Icon uploaded successfully"
          (Some (obj [("iconPath", JStr (web_path "icons" (stored_name file)))]))
    end).

(** *** POST /api/upload/images *)
Definition upload_images : list upload -> disk -> response * disk :=
  route "images" 10 (fun files =>
    match files with
    | [] => Envelope 400 "Please select image files to upload" None
    | _ :: _ =>
        Envelope 200 ("Successfully uploaded " +:+ count files +:+ " images")
          (Some (obj [("imagePaths",
                       JArr ((fun f => JStr (web_path "images" (stored_name f))) <$> files))]))
    end).

(** *** POST /api/upload/avatar *)
Definition upload_avatar : list upload -> disk -> response * disk :=
  route "userAvatar" 1 (fun files =>
    match files with
    | [] => Envelope 400 "Please select an avatar file to upload" None
    | file :: _ =>
        Envelope 200 "Avatar uploaded successfully"
          (Some (obj [("avatarPath", JStr (web_path "avatars" (stored_name file)))]))
    end).

(** *** POST /api/upload/review-images *)
Definition upload_review_images : list upload -> disk -> response * disk :=
  route "reviewImages" 10 (fun files =>
    match files with
    | [] => Envelope 400 "Please select review images to upload" None
    | _ :: _ =>
        Envelope 200 ("Successfully uploaded " +:+ count files +:+ " review images")
          (Some (obj [("reviewImagePaths",
                       JArr ((fun f => JStr (web_path "review-images" (stored_name f)))
                               <$> files))]))
    end).

(** The four upload routes, with the field each expects. *)
Definition endpoints : list (string * (list upload -> disk -> response * disk)) :=
  [ ("icon", upload_icon); ("images", upload_images);
    ("userAvatar", upload_avatar); ("reviewImages", upload_review_images) ].

End Upload.

(** ** Vocabulary of the contracts *)

Module Contract.
Import JS Store Api.

(** The unit a time string is read in: the scorer looks for weeks first,
    then months, then years. *)
Inductive time_unit : Type := Weeks | Months | Years.

Definition unit_of (s : string) : option time_unit :=
  if str_includes "周" s then Some Weeks
  else if str_includes "月" s then Some Months
  else if str_includes "年" s then Some Years
  else None.

Definition bucket_offset (u : time_unit) : Z :=
  match u with
  | Weeks => 100
  | Months => 50
  | Years => 0
  end.

(** The files a review refers to: the entries of its [reviewImages]
    array and its [userAvatar], resolved against the server directory.
    Entries that are not strings name no file. *)
Definition referenced_paths (review : json) : list json :=
  default [] (isArray (field "reviewImages" review))
  ++ (if to_boolean (field "userAvatar" review)
      then [default JNull (field "userAvatar" review)] else []).

Definition resolved (root : string) (paths : list json) : gset string :=
  list_to_set
    (omap (fun p => match p with JStr s => Some (path_resolve root s) | _ => None end) paths).

(** The seed reviews written by [initDataFiles]. *)
Definition defaultComments : list json :=
  [ obj [ ("name", JStr "Link LL"); ("userAvatar", JStr ""); ("label", JStr "本地向导");
          ("reviewCount", JStr "104条评价"); ("photoCount", JStr "405张照片");
          ("rating", num 4); ("time", JStr "4周前"); ("content", JStr "食物 啤酒 OK");
          ("reviewImages",
           JArr [ JStr "https://via.placeholder.com/200/333333/ffffff?text=Food1";
                  JStr "https://via.placeholder.com/200/333333/ffffff?text=Food2";
                  JStr "https://via.placeholder.com/200/333333/ffffff?text=Food3";
                  JStr "https://via.placeholder.com/200/333333/ffffff?text=Beer" ]);
          ("isUserAdd", JBool false); ("likeCount", num 0); ("isLiked", JBool false) ];
    obj [ ("name", JStr "Lai Hao Sheng"); ("userAvatar", JStr ""); ("label", JStr "");
          ("reviewCount", JStr "7条评价"); ("photoCount", JStr "1张照片");
          ("rating", num 5); ("time", JStr "3年前");
          ("content", JStr "非常nice 食物都很好吃 地方也很不错");
          ("reviewImages",
           JArr [ JStr "https://via.placeholder.com/200/333333/ffffff?text=Shop" ]);
          ("isUserAdd", JBool false); ("likeCount", num 0); ("isLiked", JBool false) ] ].

(** A disk right after the first start: the seed reviews, no uploads. *)
Definition seeded : disk := Disk None (Some defaultComments) ∅ true "/srv/app".






(** A review with an avatar and a photo among the uploads, on top of the
    seed reviews. *)
Definition ann : json :=
  obj [ ("name", JStr "Ann"); ("userAvatar", JStr "uploads/avatars/ann.png");
        ("rating", num 5); ("time", JStr "2周前"); ("content", JStr "Great!");
        ("reviewImages", JArr [JStr "uploads/review-images/r1.jpg"]) ].

Definition with_ann : disk :=
  Disk None (Some (ann :: defaultComments))
    {[ "/srv/app/uploads/avatars/ann.png"; "/srv/app/uploads/review-images/r1.jpg";
       "/srv/app/uploads/icons/logo.png" ]}
    true "/srv/app".

(** A profile payload that renames the shop, rates it 4.2 and drops the
    logo. *)
Definition cafe : json :=
  obj [ ("name", JStr "Cafe"); ("rating", JNum (42 # 10)); ("phone", JStr "");
        ("images", JArr [JStr "uploads/images/front.jpg"]);
        ("deletedImages", JArr [JStr "uploads/icons/logo.png"]) ].

(** A bitmap sent as the shop icon. *)
Definition bitmap : Upload.upload :=
  {| Upload.fieldname := "icon"; Upload.originalname := "logo.bmp";
     Upload.size := 2048; Upload.stamp := "1765700000000-k3j9x2ab" |}.

(** The rating of a review, when it is a number. *)
Definition rating_of (review : json) : option Q :=
  match field "rating" review with
  | Some (JNum q) => Some q
  | _ => None
  end.

Definition rating_key (review : json) : Q := default 0%Q (rating_of review).

(** Every review has a number for rating, and no two reviews have the
    same. *)
Definition distinct_ratings (reviews : list json) : Prop :=
  (forall x, x ∈ reviews -> is_Some (rating_of x)) /\
  (forall i j x y, reviews !! i = Some x -> reviews !! j = Some y -> i <> j ->
     ~ (rating_key x == rating_key y)%Q).

(** Lists in which the score never goes down. *)
Definition nondecreasing {A : Type} (score : A -> Q) : relation A :=
  fun x y => (score x <= score y)%Q.

(** Postconditions the contracts are measured against. *)






(** The answer is an envelope with a code of the 400 class and the disk
    holds the files it held. *)
Definition rejected_with_400 (out : response * disk) (d : disk) : Prop :=
  (exists code msg data, out.1 = Envelope code msg data /\ 400 <= code < 500) /\
  files out.2 = files d.

End Contract.

(** ** Deleting a stored file *)

Module Housekeeping.
Import JS Store.

(** [RESTAURANT_FILE] and [COMMENTS_FILE], for the server directory
    [root]. *)
Definition dataDir (root : string) : string := path_resolve root "data".

Definition RESTAURANT_FILE (root : string) : string :=
  path_resolve (dataDir root) "restaurant.json".

Definition COMMENTS_FILE (root : string) : string :=
  path_resolve (dataDir root) "comments.json".

(** *** DELETE /api/delete/file

    The handler runs inside [try]: destructuring an [undefined] or [null]
    body throws, and the [catch] answers with the message of the error
    (V8's wording). *)
Definition delete_file (body : value) (d : disk) : response * disk :=
  match body with
  | None =>
      (Envelope 500
         "File deletion exception: Cannot destructure property 'filePath' of 'req.body' as it is undefined."
         None, d)
  | Some JNull =>
      (Envelope 500
         "File deletion exception: Cannot destructure property 'filePath' of 'req.body' as it is null."
         None, d)
  | Some b =>
      let filePath := field "filePath" b in
      if negb (to_boolean filePath) then (Envelope 400 "File path cannot be empty" None, d)
      else
        let '(isDeleted, d1) := deleteFileIfExist (default JNull filePath) d in
        if isDeleted : bool then
          (Envelope 200 "File deleted successfully"
             (Some (obj [("filePath", default JNull filePath)])), d1)
        else
          (Envelope 404 "File does not exist or deletion failed"
             (Some (obj [("filePath", default JNull filePath)])), d1)
  end.

End Housekeeping.

(** ** Vocabulary of the further properties *)

Module Facts.
Import JS Sorter Store Api Upload Housekeeping.

(** The paths of the two documents.  The disk keeps the documents apart
    from [files], so a path handed to [deleteFileIfExist] is followed
    faithfully as long as it does not resolve to one of them. *)
Definition is_data_file (d : disk) (path : string) : Prop :=
  path = RESTAURANT_FILE (dirname d) \/ path = COMMENTS_FILE (dirname d).

Definition spares_documents (d : disk) (paths : list json) : Prop :=
  forall p, JStr p ∈ paths -> ~ is_data_file d (path_resolve (dirname d) p).

(** The score a review is ranked by under [time/newest]. *)
Definition recency (review : json) : Z :=
  match getTimeScore (field "time" review) with
  | Ok score => score
  | Throw _ => 0
  end.

(** A review object whose time is a string, or that has none. *)
Definition time_text (review : json) : Prop :=
  exists m, review = JObj m /\ (m !! "time" = None \/ exists s, m !! "time" = Some (JStr s)).

(** A file part multer lets through on the route for [field]. *)
Definition acceptable (field : string) (file : upload) : Prop :=
  originalname file <> "" /\
  fieldname file = field /\
  toLowerCase (extname (originalname file)) ∈ allowedExts /\
  (size file <= limits_fileSize)%N.

(** Where the routes keep their files, under [uploads/]. *)
Definition folder (field : string) : string :=
  if String.eqb field "icon" then "icons"
  else if String.eqb field "images" then "images"
  else if String.eqb field "reviewImages" then "review-images"
  else "avatars".

(** The path on disk of an accepted file. *)
Definition disk_path (root : string) (file : upload) : string :=
  path_resolve (path_resolve root "uploads") (folder (fieldname file))
  +:+ "/" +:+ filename file.


(** The parts of a request that carry a file name. *)
Definition named (parts : list upload) : list upload :=
  List.filter (fun file => negb (String.eqb (originalname file) "")) parts.

(** A string with neither kind of slash in it. *)
Fixpoint plain (s : string) : bool :=
  match s with
  | String a s' => negb (Ascii.eqb a "/") && negb (Ascii.eqb a "\") && plain s'
  | EmptyString => true
  end.

(** A logo that passes the filter, a second one, and a photo that is too
    large. *)
Definition logo : upload :=
  {| fieldname := "icon"; originalname := "Logo.PNG";
     size := 2048; stamp := "1765700000000-k3j9x2ab" |}.

Definition shout : upload :=
  {| fieldname := "icon"; originalname := "LOGO.PNG";
     size := 1024; stamp := "1765700000004-z9y8x7w6" |}.

Definition logo2 : upload :=
  {| fieldname := "icon"; originalname := "logo2.png";
     size := 4096; stamp := "1765700000001-p0q1r2s3" |}.

Definition poster : upload :=
  {| fieldname := "images"; originalname := "poster.jpg";
     size := 6 * 1024 * 1024; stamp := "1765700000002-a1b2c3d4" |}.

Definition photo : upload :=
  {| fieldname := "images"; originalname := "front.jpeg";
     size := 300000; stamp := "1765700000003-e5f6g7h8" |}.

Definition unnamed : upload :=
  {| fieldname := "icon"; originalname := ""; size := 0; stamp := "" |}.

(** A disk that refuses writes, with the reviews and files of
    [Contract.with_ann]. *)
Definition read_only : disk :=
  Disk None (Some (Contract.ann :: Contract.defaultComments)) (files Contract.with_ann)
    false "/srv/app".

(** [req.body.k], for a body that may be missing. *)
Definition supplied (k : string) (body : value) : value :=
  match body with
  | Some b => field k b
  | None => None
  end.

(** The reviews with the rating [q], and those with the recency [z], in
    the order they have in [reviews]. *)
Definition same_rating (q : Q) (reviews : list json) : list json :=
  List.filter (fun x => Qeq_bool (Contract.rating_key x) q) reviews.

Definition same_recency (z : Z) (reviews : list json) : list json :=
  List.filter (fun x => recency x =? z) reviews.

(** A review whose time is truthy and has no [includes] method: a
    number, [true] or an object. *)
Definition time_without_includes (review : json) : Prop :=
  exists m t, review = JObj m /\ m !! "time" = Some t /\ truthy t = true /\
    match t with JStr _ | JArr _ => False | _ => True end.

(** A path component that [path.resolve] keeps as it stands: not empty,
    not [.] or [..], and free of [/]. *)
Fixpoint slashless (s : string) : bool :=
  match s with
  | String a s' => negb (Ascii.eqb a "/") && slashless s'
  | EmptyString => true
  end.

Definition segment (s : string) : bool :=
  slashless s && negb (String.eqb s "") && negb (String.eqb s ".")
  && negb (String.eqb s "..").

(** The body of a request to delete the file at [filePath]. *)
Definition naming (filePath : string) : json := obj [("filePath", JStr filePath)].

(** A review timed by the clock, on top of the seed reviews; and a disk
    that holds the source of the server. *)
Definition timed : json :=
  obj [ ("name", JStr "Bo"); ("rating", num 3); ("time", JNum 1765700000000);
        ("content", JStr "Fine") ].

Definition with_timed : disk :=
  Disk None (Some (timed :: Contract.defaultComments)) ∅ true "/srv/app".

Definition with_source : disk :=
  Disk None (Some Contract.defaultComments) {[ "/srv/app/server.js" ]} true "/srv/app".

End Facts.

(** * Properties *)

(** ** The primitives on sample inputs *)

Section samples.
Import JS Store Upload.

Example parseInt_samples :
  parseInt_string "4周前" = Some 4 /\ parseInt_string "  -12abc" = Some (-12) /\
  parseInt_string "0x1F" = Some 31 /\ parseInt_string "0" = Some 0 /\
  parseInt_string "周" = None /\ parseInt_string "" = None /\
  parseInt (Some (JNum (45 # 10))) = Ok (Some 4) /\ parseInt None = Ok None /\
  parseInt (Some (JArr [JStr " 7x"; JNum 3])) = Ok (Some 7).
Proof. repeat split. Qed.

Example number_to_string_samples :
  number_to_string 5 = "5" /\ number_to_string (46 # 10) = "4.6" /\
  number_to_string (-1 # 2) = "-0.5" /\ number_to_string (15 # 100000000) = "1.5e-7" /\
  number_to_string (inject_Z (10 ^ 21)) = "1e+21" /\
  to_string (JArr [JNum 4; JNull; JArr [JStr "a"; JBool true]; JObj ∅])
    = Ok "4,,a,true,[object Object]".
Proof. repeat split. Qed.

Example parseFloat_samples :
  parseFloat_string " 4.6abc" = Fin (23 # 5) /\ parseFloat_string "-.5e1" = Fin (-5) /\
  parseFloat_string "5." = Fin 5 /\ parseFloat_string "." = NaN /\
  parseFloat_string "-Infinity" = Inf true /\ parseFloat_string "undefined" = NaN /\
  string_to_number " 4.6 " = Fin (23 # 5) /\ string_to_number "4.6a" = NaN /\
  string_to_number "" = Fin 0 /\ string_to_number "0x1f" = Fin 31.
Proof. repeat split. Qed.

Example extname_samples :
  extname "photo.JPG" = ".JPG" /\ extname "archive.tar.gz" = ".gz" /\
  extname ".png" = "" /\ extname "name." = "." /\ extname "name" = "" /\
  extname ".." = "" /\ basename "Logo.PNG" ".png" = "Logo.PNG" /\
  basename "logo.png" ".png" = "logo".
Proof. repeat split. Qed.

Example path_resolve_samples :
  path_resolve "/srv/app" "uploads/icons/a.png" = "/srv/app/uploads/icons/a.png" /\
  path_resolve "/srv/app" "/etc/hosts" = "/etc/hosts" /\
  path_resolve "/srv/app" "../x//y/./z/" = "/srv/x/y/z" /\
  path_resolve "/srv/app" "" = "/srv/app".
Proof. repeat split. Qed.

End samples.

(** ** The recency score *)

Section recency_score.
Import JS Sorter Contract.

(** The score of a string, by the unit it is read in. *)
Lemma getTimeScore_by_unit (s : string) :
  getTimeScore (Some (JStr s)) =
  Ok (match unit_of s with
      | Some u => or_int (parseInt_string s) (bucket_offset u)
      | None => 0
      end).
Proof.
  unfold getTimeScore, unit_of; cbn [truthy].
  destruct (String.eqb_spec s "") as [->|Hne]; [reflexivity|].
  cbn [negb includes result_bind parseInt to_string_value to_string].
  destruct (str_includes "周" s); [reflexivity|].
  destruct (str_includes "月" s); [reflexivity|].
  destruct (str_includes "年" s); reflexivity.
Qed.

(** C1.  For every time string: when the string contains the weeks unit
    and its numeric prefix parses to a nonzero [n], the score is [n], with
    no offset added; when the prefix does not parse or is 0, the score is
    100.  The same holds with 50 for a string with the months unit (and no
    weeks unit) and with 0 for a string with the years unit (and neither
    of the others); a string with no unit scores 0.  So the offset only
    counts when the parse has failed. *)
Theorem getTimeScore_string (s : string) :
  let score := getTimeScore (Some (JStr s)) in
  let has unit := str_includes unit s = true in
  (has "周" ->
     (forall n, parseInt_string s = Some n -> n <> 0 -> score = Ok n) /\
     (parseInt_string s = None \/ parseInt_string s = Some 0 -> score = Ok 100)) /\
  (~ has "周" -> has "月" ->
     (forall n, parseInt_string s = Some n -> n <> 0 -> score = Ok n) /\
     (parseInt_string s = None \/ parseInt_string s = Some 0 -> score = Ok 50)) /\
  (~ has "周" -> ~ has "月" -> has "年" ->
     (forall n, parseInt_string s = Some n -> n <> 0 -> score = Ok n) /\
     (parseInt_string s = None \/ parseInt_string s = Some 0 -> score = Ok 0)) /\
  (~ has "周" -> ~ has "月" -> ~ has "年" -> score = Ok 0).
Proof.
  intros score has. subst score has. cbv beta.
  rewrite getTimeScore_by_unit. unfold unit_of.
  assert (Hscore : forall u,
    (forall n, parseInt_string s = Some n -> n <> 0 ->
       Ok (or_int (parseInt_string s) (bucket_offset u)) = Ok n) /\
    (parseInt_string s = None \/ parseInt_string s = Some 0 ->
       Ok (or_int (parseInt_string s) (bucket_offset u)) = Ok (bucket_offset u))).
  { intros u. split.
    - intros n -> Hn. cbn [or_int]. destruct (Z.eqb_spec n 0); [contradiction|reflexivity].
    - intros [-> | ->]; reflexivity. }
  destruct (str_includes "周" s), (str_includes "月" s), (str_includes "年" s);
    repeat split;
    try (intros; exfalso; congruence);
    intros; try (apply (Hscore Weeks)); try (apply (Hscore Months));
    try (apply (Hscore Years)); assumption.
Qed.

Lemma getTimeScore_string_witness :
  getTimeScore (Some (JStr "4周前")) = Ok 4 /\
  getTimeScore (Some (JStr "周前")) = Ok 100 /\
  getTimeScore (Some (JStr "0月前")) = Ok 50 /\
  getTimeScore (Some (JStr "3年前")) = Ok 3 /\
  getTimeScore (Some (JStr "Just now")) = Ok 0.
Proof.
  split; [|split; [|split; [|split]]].
  - apply (proj1 (proj1 (getTimeScore_string "4周前") eq_refl) 4);
      [reflexivity | discriminate].
  - apply (proj2 (proj1 (getTimeScore_string "周前") eq_refl)).
    left; reflexivity.
  - apply (proj2 (proj1 (proj2 (getTimeScore_string "0月前"))
                    ltac:(discriminate) eq_refl)).
    right; reflexivity.
  - apply (proj1 (proj1 (proj2 (proj2 (getTimeScore_string "3年前")))
                    ltac:(discriminate) ltac:(discriminate) eq_refl) 3);
      [reflexivity | discriminate].
  - apply (proj2 (proj2 (proj2 (getTimeScore_string "Just now")))); discriminate.
Defined.

End recency_score.

(** ** Removing a review *)

Section delete_comment.
Import JS Store Api Contract.

Lemma deleteFileIfExist_frame (p : json) (d : disk) :
  let d' := (deleteFileIfExist p d).2 in
  restaurant_json d' = restaurant_json d /\ comments_json d' = comments_json d /\
  writable d' = writable d /\ dirname d' = dirname d.
Proof.
  destruct p; cbn; auto. case_decide; cbn; auto.
Qed.

Lemma deleteFileIfExist_files (p : json) (d : disk) :
  files (deleteFileIfExist p d).2 = files d ∖ resolved (dirname d) [p].
Proof.
  unfold resolved. destruct p; cbn; try (rewrite difference_empty_L; reflexivity).
  rewrite union_empty_r_L. case_decide as Hin; cbn; [reflexivity|].
  apply set_eq; intros x. rewrite elem_of_difference, elem_of_singleton.
  split; [intros Hx; split; [exact Hx|congruence] | tauto].
Qed.

Lemma delete_each_frame (paths : list json) (d : disk) :
  let d' := delete_each paths d in
  restaurant_json d' = restaurant_json d /\ comments_json d' = comments_json d /\
  writable d' = writable d /\ dirname d' = dirname d.
Proof.
  unfold delete_each. revert d.
  induction paths as [|p paths IH]; intros d; cbn; [auto|].
  destruct (IH (deleteFileIfExist p d).2) as (-> & -> & -> & ->).
  apply deleteFileIfExist_frame.
Qed.

Lemma resolved_app (root : string) (ps qs : list json) :
  resolved root (ps ++ qs) = resolved root ps ∪ resolved root qs.
Proof. unfold resolved. rewrite omap_app, list_to_set_app_L. reflexivity. Qed.

Lemma delete_each_files (paths : list json) (d : disk) :
  files (delete_each paths d) = files d ∖ resolved (dirname d) paths.
Proof.
  unfold delete_each. revert d.
  induction paths as [|p paths IH]; intros d; cbn [foldl].
  - unfold resolved. cbn. rewrite difference_empty_L. reflexivity.
  - rewrite IH, deleteFileIfExist_files.
    destruct (deleteFileIfExist_frame p d) as (_ & _ & _ & ->).
    change (p :: paths) with ([p] ++ paths)%list. rewrite resolved_app.
    apply set_eq; intros x. rewrite !elem_of_difference, elem_of_union. tauto.
Qed.

(** C5.  For every index parameter that parses to an integer below 0 or
    at least the length of the stored list, the answer is the code-400
    envelope and the disk (the comments file, the uploaded files) is as
    it was. *)
Theorem delete_comment_out_of_range (index_param : string) (i : Z) (d : disk) :
  parseInt_string index_param = Some i ->
  i < 0 \/ i >= Z.of_nat (length (load_comments d)) ->
  delete_comment index_param d = (Envelope 400 "Invalid comment index" None, d).
Proof.
  intros Hi Hrange. unfold delete_comment. rewrite Hi. cbn [invalid_index].
  destruct (Z.ltb_spec i 0) as [?|?]; [reflexivity|].
  destruct (Z.geb_spec i (Z.of_nat (length (load_comments d)))) as [?|?]; [reflexivity|lia].
Qed.

Lemma delete_comment_out_of_range_witness :
  delete_comment "2" seeded = (Envelope 400 "Invalid comment index" None, seeded) /\
  delete_comment "-1" seeded = (Envelope 400 "Invalid comment index" None, seeded).
Proof.
  split.
  - apply (delete_comment_out_of_range "2" 2 seeded); [reflexivity|].
    right. vm_compute. discriminate.
  - apply (delete_comment_out_of_range "-1" (-1) seeded); [reflexivity|].
    left. lia.
Defined.

(** C10.  For every index parameter that [parseInt] reads as NaN, the
    range check does not fire, the review looked up is [undefined], and
    the handler fails on reading its [reviewImages] instead of
    answering with the 400 envelope; nothing on the disk changes. *)
Theorem delete_comment_nan_index (index_param : string) (d : disk) :
  parseInt_string index_param = None ->
  invalid_index (parseInt_string index_param) (length (load_comments d)) = false /\
  at_index (parseInt_string index_param) (load_comments d) = None /\
  delete_comment index_param d = (Failure (CannotReadProperty "reviewImages"), d).
Proof.
  intros Hnan. unfold delete_comment. rewrite Hnan. auto.
Qed.

Lemma delete_comment_nan_index_witness :
  delete_comment "abc" seeded = (Failure (CannotReadProperty "reviewImages"), seeded).
Proof.
  apply (delete_comment_nan_index "abc" seeded). reflexivity.
Defined.



End delete_comment.

(** ** Adding and replacing reviews *)

Section comments.
Import JS Store Api Contract.



Lemma post_comment_run (newComment : json) (p : option Z) (d : disk) :
  writable d = true ->
  to_boolean (field "content" newComment) = true ->
  to_boolean (field "rating" newComment) = true ->
  parseInt (field "rating" newComment) = Ok p ->
  post_comment (Some newComment) d =
    (Envelope 200 "Comment added successfully" (Some (commentToAdd newComment p)),
     set_comments (commentToAdd newComment p :: load_comments d) d).
Proof.
  intros Hw Hc Hr Hp. unfold post_comment, writeJsonFile.
  change (default JNull (Some newComment)) with newComment.
  change (to_boolean (Some newComment)) with (truthy newComment).
  rewrite Hc, Hr, Hp, Hw.
  assert (truthy newComment = true) as ->; [|reflexivity].
  destruct newComment; try discriminate. reflexivity.
Qed.












End comments.

(** ** Saving the profile *)

Section restaurant.
Import JS Store Api Contract.

Lemma field_delete_field (k k' : string) (j : json) :
  k <> k' -> field k (delete_field k' j) = field k j.
Proof.
  intros Hne. destruct j; try reflexivity. cbn. apply lookup_delete_ne. congruence.
Qed.

Lemma finalConfig_delete (payload : json) (r : number) :
  finalConfig (delete_field "deletedImages" payload) r = finalConfig payload r.
Proof.
  unfold finalConfig. rewrite !field_delete_field by discriminate. reflexivity.
Qed.







End restaurant.

(** ** Uploads with another extension *)

Section uploads.
Import JS Store Upload Contract.

Lemma fileFilter_rejects (file : upload) :
  toLowerCase (extname (originalname file)) ∉ allowedExts ->
  fileFilter file = Throw (UploadError "❌ 仅支持以下格式: .jpg, .jpeg, .png, .gif, .webp").
Proof.
  unfold fileFilter, allowedExts. rewrite !not_elem_of_cons. intros Hext.
  destruct Hext as (H1 & H2 & H3 & H4 & H5 & _). cbn [existsb].
  rewrite (proj2 (String.eqb_neq _ _) H1), (proj2 (String.eqb_neq _ _) H2),
    (proj2 (String.eqb_neq _ _) H3), (proj2 (String.eqb_neq _ _) H4),
    (proj2 (String.eqb_neq _ _) H5).
  reflexivity.
Qed.

(** multer does not get past a named file the filter rejects. *)
Lemma multer_receive_stops (root field : string) (file : upload) (parts : list upload) :
  file ∈ parts ->
  originalname file <> "" ->
  toLowerCase (extname (originalname file)) ∉ allowedExts ->
  forall filesLeft slots written,
    exists written' e,
      multer_receive root field filesLeft slots parts written = (written', Some e).
Proof.
  intros Hin Hname Hext.
  induction parts as [|part parts IH]; [apply elem_of_nil in Hin; contradiction|].
  intros filesLeft slots written.
  destruct slots as [|slots']; [cbn; eauto|]. cbn [multer_receive].
  apply elem_of_cons in Hin as [<-|Hin].
  - destruct (String.eqb_spec (originalname file) "") as [?|_]; [contradiction|].
    destruct filesLeft as [|filesLeft']; [eauto|].
    destruct (negb (String.eqb (fieldname file) field)); [eauto|].
    rewrite (fileFilter_rejects file Hext). eauto.
  - destruct (String.eqb (originalname part) ""); [apply IH, Hin|].
    destruct filesLeft as [|filesLeft']; [eauto|].
    destruct (negb (String.eqb (fieldname part) field)); [eauto|].
    destruct (fileFilter part) as [[|]|e]; [|apply IH, Hin|eauto].
    destruct (destination root part) as [dir|e]; [|eauto].
    destruct (limits_fileSize <? size part)%N; [eauto|apply IH, Hin].
Qed.

Lemma route_stops (field : string) (maxCount : nat) (handler : list stored -> response)
    (file : upload) (parts : list upload) (d : disk) :
  file ∈ parts ->
  originalname file <> "" ->
  toLowerCase (extname (originalname file)) ∉ allowedExts ->
  (exists e, (route field maxCount handler parts d).1 = Failure e) /\
  files (route field maxCount handler parts d).2 ⊆ files d.
Proof.
  intros Hin Hname Hext. unfold route.
  destruct (multer_receive_stops (dirname d) field file parts Hin Hname Hext
              maxCount limits_files []) as (written & e & ->).
  cbn [fst snd set_files files]. split; [eauto|].
  intros x. rewrite elem_of_difference. tauto.
Qed.

Lemma route_single (field : string) (maxCount : nat) (handler : list stored -> response)
    (file : upload) (d : disk) :
  originalname file <> "" ->
  toLowerCase (extname (originalname file)) ∉ allowedExts ->
  fieldname file = field ->
  (0 < maxCount)%nat ->
  route field maxCount handler [file] d =
    (Failure (UploadError "❌ 仅支持以下格式: .jpg, .jpeg, .png, .gif, .webp"), d).
Proof.
  intros Hname Hext <- Hcount. unfold route, limits_files.
  destruct maxCount as [|maxCount']; [lia|]. cbn [multer_receive].
  destruct (String.eqb_spec (originalname file) "") as [?|_]; [contradiction|].
  rewrite String.eqb_refl. cbn [negb]. rewrite (fileFilter_rejects file Hext).
  cbn [fmap list_fmap list_to_set foldr]. rewrite difference_empty_L.
  destruct d; reflexivity.
Qed.

(** C8, amended.  For every request to one of the four upload routes
    that carries a named file whose lower-cased extension is not one of
    .jpg, .jpeg, .png, .gif and .webp, the upload stops with an error
    before the route's handler runs: the answer is the error response of
    Express, not an envelope, so not one of the 400 class, and the disk
    holds no file it did not hold before.  When the file is the only
    part and sits in the route's own field, the error is the one the
    filter raised and the disk is as it was. *)
Theorem upload_rejects_extension (field : string)
    (endpoint : list upload -> disk -> response * disk)
    (file : upload) (parts : list upload) (d : disk) :
  (field, endpoint) ∈ endpoints ->
  file ∈ parts ->
  originalname file <> "" ->
  toLowerCase (extname (originalname file)) ∉ allowedExts ->
  (exists e, (endpoint parts d).1 = Failure e) /\
  files (endpoint parts d).2 ⊆ files d /\
  ~ rejected_with_400 (endpoint parts d) d /\
  (fieldname file = field ->
     endpoint [file] d =
       (Failure (UploadError "❌ 仅支持以下格式: .jpg, .jpeg, .png, .gif, .webp"), d)).
Proof.
  intros Hendpoint Hin Hname Hext.
  assert (Hroute : exists maxCount handler,
             (0 < maxCount)%nat /\ endpoint = route field maxCount handler).
  { unfold endpoints in Hendpoint.
    repeat (apply elem_of_cons in Hendpoint as [Hendpoint|Hendpoint];
            [injection Hendpoint as -> ->; do 2 eexists; split; [|reflexivity]; lia|]).
    apply elem_of_nil in Hendpoint. contradiction. }
  destruct Hroute as (maxCount & handler & Hcount & ->).
  destruct (route_stops field maxCount handler file parts d Hin Hname Hext) as [[e He] Hfiles].
  split; [eauto|]. split; [exact Hfiles|]. split.
  - intros [(code & msg & data & Henv & _) _]. rewrite He in Henv. discriminate Henv.
  - intros Hfield. apply route_single; assumption.
Qed.

Lemma upload_rejects_extension_witness :
  upload_icon [bitmap] with_ann =
    (Failure (UploadError "❌ 仅支持以下格式: .jpg, .jpeg, .png, .gif, .webp"), with_ann).
Proof.
  apply (upload_rejects_extension "icon" upload_icon bitmap [bitmap] with_ann).
  - unfold endpoints. apply elem_of_cons. left; reflexivity.
  - apply elem_of_cons. left; reflexivity.
  - discriminate.
  - unfold allowedExts. rewrite !not_elem_of_cons.
    repeat split; try discriminate. apply not_elem_of_nil.
  - reflexivity.
Defined.

(** C8 as stated fails: a bitmap sent to the icon route is not answered
    with an envelope of the 400 class. *)
Lemma upload_bmp_counterexample :
  toLowerCase (extname (originalname bitmap)) = ".bmp" /\
  (upload_icon [bitmap] with_ann).1 =
    Failure (UploadError "❌ 仅支持以下格式: .jpg, .jpeg, .png, .gif, .webp") /\
  ~ rejected_with_400 (upload_icon [bitmap] with_ann) with_ann.
Proof.
  split; [reflexivity|]. split; [reflexivity|].
  intros [(code & msg & data & Henv & _) _].
  change (Failure (UploadError "❌ 仅支持以下格式: .jpg, .jpeg, .png, .gif, .webp")
          = Envelope code msg data) in Henv.
  discriminate Henv.
Qed.

End uploads.

(** ** Sorting by rating *)

Section sort_by_score.
Import JS Sorter Contract.
Context {A : Type} (comparefn : A -> A -> result number) (score : A -> Q) (good : A -> Prop).

(** The comparator answers, on good elements, with a number that is
    negative exactly when the first scores less. *)
Hypothesis comparefn_score : forall x y, good x -> good y ->
  exists v, comparefn x y = Ok v /\ (negative v = true <-> (score x < score y)%Q).

#[local] Instance nondecreasing_trans : Transitive (nondecreasing score).
Proof. intros x y z. unfold nondecreasing. apply Qle_trans. Qed.

Lemma sort_insert_sorted (x : A) (sorted : list A) :
  good x -> Forall good sorted -> StronglySorted (nondecreasing score) sorted ->
  exists out, sort_insert comparefn x sorted = Ok out /\
              out ≡ₚ x :: sorted /\ StronglySorted (nondecreasing score) out.
Proof.
  intros Hx. induction sorted as [|y ys IH]; intros Hgood Hsorted.
  - exists [x]. repeat split; [reflexivity | repeat constructor].
  - apply Forall_cons in Hgood as [Hy Hys].
    apply StronglySorted_cons in Hsorted as [Hhead Htail].
    destruct (comparefn_score x y Hx Hy) as (v & Hv & Hneg).
    cbn [sort_insert]. rewrite Hv. cbn [result_bind].
    destruct (negative v) eqn:Hsign.
    + exists (x :: y :: ys). split; [reflexivity|]. split; [reflexivity|].
      assert (Hxy : nondecreasing score x y)
        by (apply Qlt_le_weak, Hneg; reflexivity).
      apply StronglySorted_cons. split.
      * apply Forall_cons. split; [exact Hxy|].
        eapply Forall_impl; [exact Hhead|]. intros z Hz. etransitivity; eassumption.
      * apply StronglySorted_cons. auto.
    + destruct (IH Hys Htail) as (out & -> & Hperm & Hout).
      exists (y :: out). cbn [result_bind]. split; [reflexivity|].
      split; [rewrite Hperm; apply perm_swap|].
      apply StronglySorted_cons. split; [|exact Hout].
      rewrite Hperm. apply Forall_cons. split; [|exact Hhead].
      unfold nondecreasing. apply Qnot_lt_le. intros Hlt.
      apply Hneg in Hlt. congruence.
Qed.

Lemma sort_from_sorted (rest sorted : list A) :
  Forall good sorted -> Forall good rest -> StronglySorted (nondecreasing score) sorted ->
  exists out, sort_from comparefn sorted rest = Ok out /\
              out ≡ₚ sorted ++ rest /\ StronglySorted (nondecreasing score) out.
Proof.
  revert sorted. induction rest as [|x rest IH]; intros sorted Hsorted_good Hrest Hsorted.
  - exists sorted. rewrite app_nil_r. auto.
  - apply Forall_cons in Hrest as [Hx Hrest].
    destruct (sort_insert_sorted x sorted Hx Hsorted_good Hsorted) as (mid & Hmid & Hperm & Hss).
    cbn [sort_from]. rewrite Hmid. cbn [result_bind].
    destruct (IH mid) as (out & Hout & Hperm' & Hss'); [|exact Hrest|exact Hss|].
    { rewrite Hperm. apply Forall_cons. auto. }
    exists out. split; [exact Hout|]. split; [|exact Hss'].
    rewrite Hperm', Hperm. apply Permutation_middle.
Qed.

Lemma array_sort_sorted (l : list A) :
  Forall good l ->
  exists out, array_sort comparefn l = Ok out /\
              out ≡ₚ l /\ StronglySorted (nondecreasing score) out.
Proof.
  intros Hl. apply (sort_from_sorted l []); [constructor | exact Hl | constructor].
Qed.

End sort_by_score.

Section rating_order.
Import JS Sorter Store Api Contract.

Lemma numeric_rating (x : json) :
  is_Some (rating_of x) -> field "rating" x = Some (JNum (rating_key x)) /\ x <> JNull.
Proof.
  unfold rating_key, rating_of. intros [q Hq].
  destruct (field "rating" x) as [[]|] eqn:Hfield; try discriminate.
  split; [reflexivity|]. intros ->. discriminate.
Qed.

Lemma prop_rating (x : json) :
  is_Some (rating_of x) -> prop "rating" (Some x) = Ok (Some (JNum (rating_key x))).
Proof.
  intros Hx. destruct (numeric_rating x Hx) as [Hfield Hnull].
  destruct x; try contradiction; cbn [prop]; rewrite Hfield; reflexivity.
Qed.

Lemma negative_difference (p q : Q) :
  negative (sub (Fin p) (Fin q)) = true <-> (p < q)%Q.
Proof.
  cbn [sub negative]. destruct (p - q ?= 0)%Q eqn:Hcmp.
  - apply Qeq_alt in Hcmp. split; [discriminate|]. intros Hlt. lra.
  - apply Qlt_alt in Hcmp. split; [intros _; lra|reflexivity].
  - apply Qgt_alt in Hcmp. split; [discriminate|]. intros Hlt. lra.
Qed.

Lemma by_rating_asc_score (x y : json) :
  is_Some (rating_of x) -> is_Some (rating_of y) ->
  exists v, by_rating_asc x y = Ok v /\
            (negative v = true <-> (rating_key x < rating_key y)%Q).
Proof.
  intros Hx Hy. unfold by_rating_asc. rewrite (prop_rating x Hx), (prop_rating y Hy).
  eexists. split; [reflexivity|]. apply negative_difference.
Qed.

Lemma by_rating_desc_score (x y : json) :
  is_Some (rating_of x) -> is_Some (rating_of y) ->
  exists v, by_rating_desc x y = Ok v /\
            (negative v = true <-> (- rating_key x < - rating_key y)%Q).
Proof.
  intros Hx Hy. unfold by_rating_desc. rewrite (prop_rating x Hx), (prop_rating y Hy).
  eexists. split; [reflexivity|]. cbn [result_bind to_number].
  rewrite negative_difference. split; intros; lra.
Qed.

(** C7.  For every stored list whose reviews have numbers for ratings,
    no two of them equal, the list GET returns for sort=rating/desc is
    the reverse of the list it returns for sort=rating/asc, which holds
    the stored reviews by rising rating. *)
Theorem rating_desc_reverses_asc (d : disk) :
  distinct_ratings (load_comments d) ->
  exists ascending,
    get_comments (Some (JStr "rating/asc")) d =
      (Envelope 200 "success" (Some (JArr ascending)), d) /\
    get_comments (Some (JStr "rating/desc")) d =
      (Envelope 200 "success" (Some (JArr (reverse ascending))), d) /\
    ascending ≡ₚ load_comments d /\
    StronglySorted (nondecreasing rating_key) ascending.
Proof.
  intros [Hnum Hdistinct].
  assert (Hgood : Forall (fun x => is_Some (rating_of x)) (load_comments d))
    by (apply Forall_forall; exact Hnum).
  destruct (array_sort_sorted by_rating_asc rating_key _ by_rating_asc_score
              (load_comments d) Hgood) as (asc & Hasc & Hperm_asc & Hsorted_asc).
  destruct (array_sort_sorted by_rating_desc (fun x => - rating_key x)%Q _
              by_rating_desc_score (load_comments d) Hgood)
    as (desc & Hdesc & Hperm_desc & Hsorted_desc).
  exists asc. unfold get_comments. cbn [JS.or truthy String.eqb negb sort_comments].
  change (String.eqb "rating/asc" "time/newest") with false.
  change (String.eqb "rating/asc" "rating/desc") with false.
  change (String.eqb "rating/asc" "rating/asc") with true.
  change (String.eqb "rating/desc" "time/newest") with false.
  change (String.eqb "rating/desc" "rating/desc") with true.
  cbv iota. rewrite Hasc, Hdesc.
  split; [reflexivity|]. split; [|split; [exact Hperm_asc|exact Hsorted_asc]].
  assert (desc = reverse asc) as ->; [|reflexivity].
  apply (StronglySorted_unique_strong (nondecreasing (fun x => - rating_key x)%Q)).
  - intros x1 x2 Hx1 Hx2 H12 H21. unfold nondecreasing in H12, H21.
    rewrite Hperm_desc in Hx1. rewrite reverse_Permutation, Hperm_asc in Hx2.
    apply list_elem_of_lookup in Hx1 as [i Hi]. apply list_elem_of_lookup in Hx2 as [j Hj].
    destruct (decide (i = j)) as [->|Hne]; [congruence|].
    exfalso. apply (Hdistinct i j x1 x2 Hi Hj Hne). lra.
  - exact Hsorted_desc.
  - apply Sorted_StronglySorted; [apply nondecreasing_trans|].
    apply StronglySorted_Sorted, Sorted_reverse in Hsorted_asc.
    eapply Sorted_fmap with (f := id) in Hsorted_asc.
    + rewrite list_fmap_id in Hsorted_asc. exact Hsorted_asc.
    + intros x y. unfold flip, nondecreasing, id. intros. lra.
  - rewrite Hperm_desc, reverse_Permutation, Hperm_asc. reflexivity.
Qed.

Lemma rating_desc_reverses_asc_witness :
  exists ascending,
    get_comments (Some (JStr "rating/asc")) seeded =
      (Envelope 200 "success" (Some (JArr ascending)), seeded) /\
    get_comments (Some (JStr "rating/desc")) seeded =
      (Envelope 200 "success" (Some (JArr (reverse ascending))), seeded).
Proof.
  destruct (rating_desc_reverses_asc seeded) as (ascending & Hasc & Hdesc & _).
  - split.
    + intros x Hx. change (load_comments seeded) with defaultComments in Hx.
      unfold defaultComments in Hx.
      repeat (apply elem_of_cons in Hx as [->|Hx]; [eexists; reflexivity|]).
      apply elem_of_nil in Hx. contradiction.
    + intros i j x y Hi Hj Hne.
      destruct i as [|[|i]], j as [|[|j]]; try discriminate; try contradiction;
        injection Hi as <-; injection Hj as <-; vm_compute; discriminate.
  - exists ascending. split; [exact Hasc|exact Hdesc].
Defined.

End rating_order.

(** * Further properties *)

(** Membership in a list written out. *)
Ltac in_list := repeat (apply elem_of_cons; first [left; reflexivity | right]).

(** ** What multer lets through *)

Section upload_limits.
Import JS Store Upload Facts.

Lemma endpoint_route (field : string) (endpoint : list upload -> disk -> response * disk) :
  (field, endpoint) ∈ endpoints ->
  exists maxCount handler,
    (0 < maxCount <= 10)%nat /\ endpoint = route field maxCount handler /\
    field ∈ ["icon"; "images"; "userAvatar"; "reviewImages"].
Proof.
  unfold endpoints. intros Hin.
  repeat (apply elem_of_cons in Hin as [Hin|Hin];
          [injection Hin as -> ->; do 2 eexists;
           split; [|split; [reflexivity|]]; [lia|set_solver]|]).
  apply elem_of_nil in Hin. contradiction.
Qed.

Lemma fileFilter_accepts (file : upload) :
  toLowerCase (extname (originalname file)) ∈ allowedExts -> fileFilter file = Ok true.
Proof.
  unfold fileFilter, allowedExts. intros Hin.
  assert (existsb (String.eqb (toLowerCase (extname (originalname file))))
            [".jpg"; ".jpeg"; ".png"; ".gif"; ".webp"] = true) as ->; [|reflexivity].
  apply existsb_exists. exists (toLowerCase (extname (originalname file))).
  split; [apply list_elem_of_In, Hin|apply String.eqb_refl].
Qed.

Lemma fileFilter_verdict (file : upload) :
  fileFilter file = Ok true \/
  fileFilter file = Throw (UploadError "❌ 仅支持以下格式: .jpg, .jpeg, .png, .gif, .webp").
Proof.
  unfold fileFilter. destruct (existsb _ _); auto.
Qed.

Lemma destination_folder (root : string) (file : upload) :
  fieldname file ∈ ["icon"; "images"; "userAvatar"; "reviewImages"] ->
  destination root file =
    Ok (path_resolve (path_resolve root "uploads") (folder (fieldname file))).
Proof.
  intros Hin. unfold destination, folder.
  repeat (apply elem_of_cons in Hin as [->|Hin]; [reflexivity|]).
  apply elem_of_nil in Hin. contradiction.
Qed.

(** multer stops at a named part that sits in another field or exceeds
    the size limit, if not before. *)
Lemma multer_receive_blocked (root field : string) (file : upload) (parts : list upload) :
  file ∈ parts ->
  originalname file <> "" ->
  fieldname file <> field \/ (limits_fileSize < size file)%N ->
  forall filesLeft slots written,
    exists written' e,
      multer_receive root field filesLeft slots parts written = (written', Some e).
Proof.
  intros Hin Hname Hblock.
  induction parts as [|part parts IH]; [apply elem_of_nil in Hin; contradiction|].
  intros filesLeft slots written.
  destruct slots as [|slots']; [cbn; eauto|]. cbn [multer_receive].
  apply elem_of_cons in Hin as [<-|Hin].
  - destruct (String.eqb_spec (originalname file) "") as [?|_]; [contradiction|].
    destruct filesLeft as [|filesLeft']; [eauto|].
    destruct (String.eqb_spec (fieldname file) field) as [Hfield|Hfield]; cbn [negb]; [|eauto].
    destruct Hblock as [?|Hsize]; [contradiction|].
    destruct (fileFilter_verdict file) as [-> | ->]; [|eauto].
    destruct (destination root file) as [dir|e]; [|eauto].
    apply N.ltb_lt in Hsize. rewrite Hsize. eauto.
  - destruct (String.eqb (originalname part) ""); [apply IH, Hin|].
    destruct filesLeft as [|filesLeft']; [eauto|].
    destruct (negb (String.eqb (fieldname part) field)); [eauto|].
    destruct (fileFilter part) as [[|]|e]; [|apply IH, Hin|eauto].
    destruct (destination root part) as [dir|e]; [|eauto].
    destruct (limits_fileSize <? size part)%N; [eauto|apply IH, Hin].
Qed.

(** multer stops when the parts outnumber the slots. *)
Lemma multer_receive_crowded (root field : string) (parts : list upload) :
  forall filesLeft slots written,
    (slots < length parts)%nat ->
    exists written' e,
      multer_receive root field filesLeft slots parts written = (written', Some e).
Proof.
  induction parts as [|part parts IH]; intros filesLeft slots written Hlen; [cbn in Hlen; lia|].
  destruct slots as [|slots']; [cbn; eauto|]. cbn [multer_receive].
  cbn [length] in Hlen. assert (Hrest : (slots' < length parts)%nat) by lia.
  destruct (String.eqb (originalname part) ""); [apply IH, Hrest|].
  destruct filesLeft as [|filesLeft']; [eauto|].
  destruct (negb (String.eqb (fieldname part) field)); [eauto|].
  destruct (fileFilter part) as [[|]|e]; [|apply IH, Hrest|eauto].
  destruct (destination root part) as [dir|e]; [|eauto].
  destruct (limits_fileSize <? size part)%N; [eauto|apply IH, Hrest].
Qed.

(** multer stops when the named parts outnumber the files the field may
    take. *)
Lemma multer_receive_overfull (root field : string) (parts : list upload) :
  forall filesLeft slots written,
    (filesLeft < length (named parts))%nat ->
    exists written' e,
      multer_receive root field filesLeft slots parts written = (written', Some e).
Proof.
  induction parts as [|part parts IH]; intros filesLeft slots written Hlen; [cbn in Hlen; lia|].
  destruct slots as [|slots']; [cbn; eauto|]. cbn [multer_receive].
  unfold named in Hlen. cbn [List.filter] in Hlen. fold (named parts) in Hlen.
  destruct (String.eqb (originalname part) ""); cbn [negb length] in Hlen; [apply IH, Hlen|].
  destruct filesLeft as [|filesLeft']; [eauto|].
  assert (Hrest : (filesLeft' < length (named parts))%nat) by lia.
  destruct (negb (String.eqb (fieldname part) field)); [eauto|].
  destruct (fileFilter part) as [[|]|e]; [|apply IH, Hrest|eauto].
  destruct (destination root part) as [dir|e]; [|eauto].
  destruct (limits_fileSize <? size part)%N; [eauto|apply IH, Hrest].
Qed.

(** A route whose multer stops answers with the error and adds no file. *)
Lemma route_fails (field : string) (maxCount : nat) (handler : list stored -> response)
    (parts : list upload) (d : disk) :
  (exists written e,
     multer_receive (dirname d) field maxCount limits_files parts [] = (written, Some e)) ->
  (exists e, (route field maxCount handler parts d).1 = Failure e) /\
  files (route field maxCount handler parts d).2 ⊆ files d /\
  restaurant_json (route field maxCount handler parts d).2 = restaurant_json d /\
  comments_json (route field maxCount handler parts d).2 = comments_json d.
Proof.
  intros (written & e & Hrun). unfold route. rewrite Hrun.
  cbn [fst snd set_files files restaurant_json comments_json].
  split; [eauto|]. split; [|auto].
  intros x. rewrite elem_of_difference. tauto.
Qed.

End upload_limits.

Section upload_answers.
Import JS Store Upload Facts.

Lemma append_assoc (a b c : string) : (a +:+ b) +:+ c = a +:+ b +:+ c.
Proof.
  induction a as [|x a IH]; [reflexivity|].
  change (String x ((a +:+ b) +:+ c) = String x (a +:+ b +:+ c)). f_equal. exact IH.
Qed.

(** X1.  A request with more than ten file parts is refused by every
    upload route: the answer is an error of Express, no file is added and
    the documents stay as they are. *)
Theorem upload_too_many_parts (field : string)
    (endpoint : list upload -> disk -> response * disk) (parts : list upload) (d : disk) :
  (field, endpoint) ∈ endpoints ->
  (10 < length parts)%nat ->
  (exists e, (endpoint parts d).1 = Failure e) /\
  files (endpoint parts d).2 ⊆ files d /\
  restaurant_json (endpoint parts d).2 = restaurant_json d /\
  comments_json (endpoint parts d).2 = comments_json d.
Proof.
  intros Hendpoint Hlen.
  destruct (endpoint_route field endpoint Hendpoint) as (maxCount & handler & _ & -> & _).
  apply route_fails. apply multer_receive_crowded. exact Hlen.
Qed.

Lemma upload_too_many_parts_witness :
  (exists e, (upload_images (replicate 11 photo) Contract.seeded).1 = Failure e) /\
  files (upload_images (replicate 11 photo) Contract.seeded).2 ⊆ files Contract.seeded.
Proof.
  destruct (upload_too_many_parts "images" upload_images (replicate 11 photo) Contract.seeded)
    as (H1 & H2 & _).
  - unfold endpoints. apply elem_of_cons. right. apply elem_of_cons. left. reflexivity.
  - cbn. lia.
  - split; [exact H1|exact H2].
Defined.

(** X2.  A request that carries a named file of more than 5 MB is refused
    by every upload route, with no file added; when that file is the only
    part and would otherwise pass, the error is multer's LIMIT_FILE_SIZE
    and the path it was being written to holds no file afterwards. *)
Theorem upload_oversized (field : string)
    (endpoint : list upload -> disk -> response * disk)
    (file : upload) (parts : list upload) (d : disk) :
  (field, endpoint) ∈ endpoints ->
  file ∈ parts ->
  originalname file <> "" ->
  (limits_fileSize < size file)%N ->
  (exists e, (endpoint parts d).1 = Failure e) /\
  files (endpoint parts d).2 ⊆ files d /\
  (fieldname file = field ->
   toLowerCase (extname (originalname file)) ∈ allowedExts ->
   (endpoint [file] d).1 = Failure (MulterError "LIMIT_FILE_SIZE") /\
   files (endpoint [file] d).2 = files d ∖ {[ disk_path (dirname d) file ]}).
Proof.
  intros Hendpoint Hin Hname Hsize.
  destruct (endpoint_route field endpoint Hendpoint)
    as (maxCount & handler & Hcount & -> & Hfield).
  destruct (route_fails field maxCount handler parts d) as (Hfail & Hfiles & _).
  { apply (multer_receive_blocked _ _ file); auto. }
  split; [exact Hfail|]. split; [exact Hfiles|].
  intros Hown Hext. unfold route, limits_files.
  destruct maxCount as [|maxCount']; [lia|]. cbn [multer_receive].
  destruct (String.eqb_spec (originalname file) "") as [?|_]; [contradiction|].
  rewrite Hown, String.eqb_refl. cbn [negb].
  rewrite (fileFilter_accepts file Hext).
  rewrite destination_folder by (rewrite Hown; exact Hfield).
  apply N.ltb_lt in Hsize. rewrite Hsize.
  cbn [fst snd app fmap list_fmap stored_path list_to_set foldr set_files files].
  unfold disk_path. rewrite union_empty_r_L. auto.
Qed.

Lemma upload_oversized_witness :
  (upload_images [poster] Contract.seeded).1 = Failure (MulterError "LIMIT_FILE_SIZE").
Proof.
  destruct (upload_oversized "images" upload_images poster [poster] Contract.seeded)
    as (_ & _ & Hsingle).
  - unfold endpoints. apply elem_of_cons. right. apply elem_of_cons. left. reflexivity.
  - apply elem_of_cons. left. reflexivity.
  - discriminate.
  - reflexivity.
  - apply Hsingle; [reflexivity|]. unfold allowedExts. apply elem_of_cons. left. reflexivity.
Defined.

(** X3.  A request that carries a named file in a field other than the
    route's own is refused by every upload route, with no file added; when
    that file is the only part the error is multer's
    LIMIT_UNEXPECTED_FILE and the disk is as it was. *)
Theorem upload_other_field (field : string)
    (endpoint : list upload -> disk -> response * disk)
    (file : upload) (parts : list upload) (d : disk) :
  (field, endpoint) ∈ endpoints ->
  file ∈ parts ->
  originalname file <> "" ->
  fieldname file <> field ->
  (exists e, (endpoint parts d).1 = Failure e) /\
  files (endpoint parts d).2 ⊆ files d /\
  endpoint [file] d = (Failure (MulterError "LIMIT_UNEXPECTED_FILE"), d).
Proof.
  intros Hendpoint Hin Hname Hother.
  destruct (endpoint_route field endpoint Hendpoint)
    as (maxCount & handler & Hcount & -> & Hfield).
  destruct (route_fails field maxCount handler parts d) as (Hfail & Hfiles & _).
  { apply (multer_receive_blocked _ _ file); auto. }
  split; [exact Hfail|]. split; [exact Hfiles|].
  unfold route, limits_files.
  destruct maxCount as [|maxCount']; [lia|]. cbn [multer_receive].
  destruct (String.eqb_spec (originalname file) "") as [?|_]; [contradiction|].
  destruct (String.eqb_spec (fieldname file) field) as [?|_]; [contradiction|].
  cbn [negb fmap list_fmap list_to_set foldr]. rewrite difference_empty_L.
  destruct d; reflexivity.
Qed.

Lemma upload_other_field_witness :
  upload_avatar [logo] Contract.with_ann =
    (Failure (MulterError "LIMIT_UNEXPECTED_FILE"), Contract.with_ann).
Proof.
  apply (upload_other_field "userAvatar" upload_avatar logo [logo] Contract.with_ann).
  - unfold endpoints. do 2 (apply elem_of_cons; right). apply elem_of_cons. left. reflexivity.
  - apply elem_of_cons. left. reflexivity.
  - discriminate.
  - discriminate.
Defined.

(** X4.  The icon and avatar routes take one file: a request with two or
    more named parts is refused, with no file added, whatever the
    parts. *)
Theorem upload_second_file (field : string)
    (endpoint : list upload -> disk -> response * disk) (parts : list upload) (d : disk) :
  (field, endpoint) ∈ [("icon", upload_icon); ("userAvatar", upload_avatar)] ->
  (2 <= length (named parts))%nat ->
  (exists e, (endpoint parts d).1 = Failure e) /\
  files (endpoint parts d).2 ⊆ files d.
Proof.
  intros Hendpoint Hlen.
  assert (Hroute : exists handler, endpoint = route field 1 handler).
  { repeat (apply elem_of_cons in Hendpoint as [Hendpoint|Hendpoint];
            [injection Hendpoint as -> ->; eexists; reflexivity|]).
    apply elem_of_nil in Hendpoint. contradiction. }
  destruct Hroute as (handler & ->).
  destruct (route_fails field 1 handler parts d) as (Hfail & Hfiles & _); [|auto].
  apply multer_receive_overfull. lia.
Qed.

Lemma upload_second_file_witness :
  (exists e, (upload_icon [logo; logo2] Contract.seeded).1 = Failure e) /\
  files (upload_icon [logo; logo2] Contract.seeded).2 ⊆ files Contract.seeded.
Proof.
  apply (upload_second_file "icon" upload_icon [logo; logo2] Contract.seeded).
  - apply elem_of_cons. left. reflexivity.
  - cbn. lia.
Defined.

Lemma multer_receive_unnamed (root field : string) (parts : list upload) :
  Forall (fun file => originalname file = "") parts ->
  forall filesLeft slots written,
    (length parts <= slots)%nat ->
    multer_receive root field filesLeft slots parts written = (written, None).
Proof.
  induction 1 as [|part parts Hpart _ IH]; intros filesLeft slots written Hlen;
    [destruct slots; reflexivity|].
  cbn [length] in Hlen. destruct slots as [|slots']; [lia|]. cbn [multer_receive].
  rewrite Hpart. cbn [String.eqb]. apply IH. lia.
Qed.

(** X5.  A request with no file in it (up to ten parts, none with a file
    name) reaches the handler of each upload route, which answers with
    its code-400 envelope; the disk is as it was. *)
Theorem upload_without_file (parts : list upload) (d : disk) :
  Forall (fun file => originalname file = "") parts ->
  (length parts <= 10)%nat ->
  upload_icon parts d = (Envelope 400 "Please select an icon file to upload" None, d) /\
  upload_images parts d = (Envelope 400 "Please select image files to upload" None, d) /\
  upload_avatar parts d = (Envelope 400 "Please select an avatar file to upload" None, d) /\
  upload_review_images parts d =
    (Envelope 400 "Please select review images to upload" None, d).
Proof.
  intros Hunnamed Hlen.
  unfold upload_icon, upload_images, upload_avatar, upload_review_images, route, limits_files.
  rewrite !(multer_receive_unnamed _ _ parts Hunnamed) by exact Hlen.
  cbn [fmap list_fmap list_to_set foldr]. rewrite union_empty_r_L.
  destruct d; cbn [set_files files restaurant_json comments_json writable dirname]. auto.
Qed.

Lemma upload_without_file_witness :
  upload_icon [unnamed] Contract.with_ann =
    (Envelope 400 "Please select an icon file to upload" None, Contract.with_ann).
Proof.
  apply (upload_without_file [unnamed] Contract.with_ann).
  - apply Forall_cons. split; [reflexivity|apply Forall_nil_2].
  - cbn. lia.
Defined.

Lemma route_accepts (field : string) (maxCount : nat) (handler : list stored -> response)
    (file : upload) (d : disk) :
  (0 < maxCount)%nat ->
  field ∈ ["icon"; "images"; "userAvatar"; "reviewImages"] ->
  acceptable field file ->
  route field maxCount handler [file] d =
    (handler [ {| stored_name := filename file;
                  stored_path := disk_path (dirname d) file |} ],
     set_files (files d ∪ {[ disk_path (dirname d) file ]}) d).
Proof.
  intros Hcount Hfield (Hname & Hown & Hext & Hsize). unfold route, limits_files.
  destruct maxCount as [|maxCount']; [lia|]. cbn [multer_receive].
  destruct (String.eqb_spec (originalname file) "") as [?|_]; [contradiction|].
  rewrite Hown, String.eqb_refl. cbn [negb].
  rewrite (fileFilter_accepts file Hext).
  rewrite destination_folder by (rewrite Hown; exact Hfield).
  apply N.ltb_ge in Hsize. rewrite Hsize.
  cbn [fst snd app fmap list_fmap stored_path list_to_set foldr].
  unfold disk_path. rewrite union_empty_r_L, Hown. reflexivity.
Qed.

(** X6.  A request with one file that passes (named, in the route's own
    field, with an allowed extension in any letter case, of at most 5 MB)
    is answered with the code-200 envelope carrying the forward-slash
    path [uploads/<folder>/<stored name>]; the file is added to the disk
    under the folder of the route and nothing else changes.  The stored
    name ends with the lower-cased extension. *)
Theorem upload_single_accepted (file : upload) (d : disk) :
  let stored := set_files (files d ∪ {[ disk_path (dirname d) file ]}) d in
  (acceptable "icon" file ->
     upload_icon [file] d =
       (Envelope 200 "Icon uploaded successfully"
          (Some (obj [("iconPath", JStr (web_path "icons" (filename file)))])), stored)) /\
  (acceptable "images" file ->
     upload_images [file] d =
       (Envelope 200 "Successfully uploaded 1 images"
          (Some (obj [("imagePaths", JArr [JStr (web_path "images" (filename file))])])),
        stored)) /\
  (acceptable "userAvatar" file ->
     upload_avatar [file] d =
       (Envelope 200 "Avatar uploaded successfully"
          (Some (obj [("avatarPath", JStr (web_path "avatars" (filename file)))])), stored)) /\
  (acceptable "reviewImages" file ->
     upload_review_images [file] d =
       (Envelope 200 "Successfully uploaded 1 review images"
          (Some (obj [("reviewImagePaths",
                       JArr [JStr (web_path "review-images" (filename file))])])),
        stored)) /\
  (exists stem, filename file = stem +:+ toLowerCase (extname (originalname file))).
Proof.
  intros stored. subst stored.
  unfold upload_icon, upload_images, upload_avatar, upload_review_images.
  split; [|split; [|split; [|split]]];
    try (intros Hok; rewrite route_accepts; [reflexivity|lia|set_solver|exact Hok]).
  unfold filename. eexists. rewrite <- !append_assoc. reflexivity.
Qed.

Lemma upload_single_accepted_witness :
  upload_icon [logo] Contract.seeded =
    (Envelope 200 "Icon uploaded successfully"
       (Some (obj [("iconPath",
                    JStr "uploads/icons/Logo.PNG-1765700000000-k3j9x2ab.png")])),
     set_files {[ "/srv/app/uploads/icons/Logo.PNG-1765700000000-k3j9x2ab.png" ]}
       Contract.seeded).
Proof.
  destruct (upload_single_accepted logo Contract.seeded) as (Hicon & _).
  rewrite Hicon.
  - reflexivity.
  - split; [discriminate|]. split; [reflexivity|]. split; [|discriminate].
    unfold allowedExts. do 2 (apply elem_of_cons; right). apply elem_of_cons. left. reflexivity.
Defined.




End upload_answers.

(** ** The filter and letter case *)

Section filter_case.
Import JS Store Upload Facts.

Lemma lower_keeps (a : ascii) :
  Ascii.eqb (lower a) "/" = Ascii.eqb a "/" /\ Ascii.eqb (lower a) "." = Ascii.eqb a ".".
Proof. destruct a as [[] [] [] [] [] [] [] []]; split; reflexivity. Qed.

Lemma toLowerCase_app (s t : string) :
  toLowerCase (s +:+ t) = toLowerCase s +:+ toLowerCase t.
Proof.
  induction s as [|a s IH]; [reflexivity|].
  change (String (lower a) (toLowerCase (s +:+ t))
          = String (lower a) (toLowerCase s +:+ toLowerCase t)).
  f_equal. exact IH.
Qed.

Lemma toLowerCase_empty (s : string) :
  String.eqb (toLowerCase s) "" = String.eqb s "".
Proof. destruct s; reflexivity. Qed.

Lemma toLowerCase_dots (s : string) :
  String.eqb (toLowerCase s) ".." = String.eqb s "..".
Proof.
  destruct s as [|a [|b [|c s]]]; try reflexivity; cbn [toLowerCase String.eqb];
    rewrite ?(proj2 (lower_keeps a)), ?(proj2 (lower_keeps b)); reflexivity.
Qed.

Lemma split_path_lower (s cur : string) :
  split_path (toLowerCase cur) (toLowerCase s) = toLowerCase <$> split_path cur s.
Proof.
  revert cur. induction s as [|a s IH]; intros cur; [reflexivity|].
  cbn [toLowerCase split_path]. rewrite (proj1 (lower_keeps a)).
  destruct (Ascii.eqb a "/").
  - rewrite fmap_cons. f_equal. apply (IH "").
  - rewrite <- IH, toLowerCase_app. reflexivity.
Qed.

Lemma last_segment_lower (s : string) :
  last_segment (toLowerCase s) = toLowerCase (last_segment s).
Proof.
  unfold last_segment. pose proof (split_path_lower s "") as Hsplit.
  cbn [toLowerCase] in Hsplit. rewrite Hsplit. clear Hsplit.
  assert (Hlast : forall segs : list string,
    last (filter (fun seg => negb (String.eqb seg "")) (toLowerCase <$> segs))
    = toLowerCase <$> last (filter (fun seg => negb (String.eqb seg "")) segs)).
  { induction segs as [|seg segs IH]; [reflexivity|].
    rewrite fmap_cons, !filter_cons, toLowerCase_empty.
    destruct (decide (negb (String.eqb seg ""))); [|exact IH].
    rewrite !last_cons, IH.
    destruct (last (filter (fun seg => negb (String.eqb seg "")) segs)); reflexivity. }
  rewrite Hlast. destruct (last _); reflexivity.
Qed.

Lemma from_last_dot_lower (s : string) :
  from_last_dot (toLowerCase s) = toLowerCase <$> from_last_dot s.
Proof.
  induction s as [|a s IH]; [reflexivity|].
  cbn [toLowerCase from_last_dot]. rewrite IH, (proj2 (lower_keeps a)).
  destruct (from_last_dot s); [reflexivity|].
  destruct (Ascii.eqb a "."); reflexivity.
Qed.

Lemma extname_lower (s : string) :
  extname (toLowerCase s) = toLowerCase (extname s).
Proof.
  unfold extname. rewrite last_segment_lower.
  destruct (last_segment s) as [|a rest]; [reflexivity|].
  cbn [toLowerCase].
  change (String (lower a) (toLowerCase rest)) with (toLowerCase (String a rest)).
  rewrite toLowerCase_dots.
  destruct (String.eqb (String a rest) ".."); [reflexivity|].
  rewrite from_last_dot_lower. destruct (from_last_dot rest); reflexivity.
Qed.

Lemma toLowerCase_twice (s : string) : toLowerCase (toLowerCase s) = toLowerCase s.
Proof.
  induction s as [|a s IH]; [reflexivity|]. cbn [toLowerCase]. rewrite IH. f_equal.
  destruct a as [[] [] [] [] [] [] [] []]; reflexivity.
Qed.

(** X8.  The extension filter reads file names without regard to letter
    case: two files whose names agree up to the case of their ASCII
    letters get the same verdict. *)
Theorem fileFilter_ignores_case (file1 file2 : upload) :
  toLowerCase (originalname file1) = toLowerCase (originalname file2) ->
  fileFilter file1 = fileFilter file2.
Proof.
  intros Hsame. unfold fileFilter.
  rewrite <- (toLowerCase_twice (extname (originalname file1))),
          <- (toLowerCase_twice (extname (originalname file2))),
          <- !extname_lower, Hsame.
  reflexivity.
Qed.

Lemma fileFilter_ignores_case_witness : fileFilter shout = fileFilter logo.
Proof. apply (fileFilter_ignores_case shout logo). reflexivity. Defined.
End filter_case.

(** ** Deleting stored files *)

Section path_resolution.
Import JS Store Facts.

Lemma append_empty_r (a : string) : a +:+ "" = a.
Proof.
  induction a as [|x a IH]; [reflexivity|].
  change (String x (a +:+ "") = String x a). f_equal. exact IH.
Qed.

Lemma split_path_slash (s1 s2 cur : string) :
  split_path cur (s1 +:+ String "/" s2) = (split_path cur s1 ++ split_path "" s2)%list.
Proof.
  revert cur. induction s1 as [|a s1 IH]; intros cur; [reflexivity|].
  change (String a s1 +:+ String "/" s2) with (String a (s1 +:+ String "/" s2)).
  cbn [split_path]. destruct (Ascii.eqb a "/"); rewrite IH; reflexivity.
Qed.

Lemma split_path_slashless (s cur : string) :
  slashless s = true -> split_path cur s = [cur +:+ s].
Proof.
  revert cur. induction s as [|a s IH]; intros cur Hs.
  - cbn. rewrite append_empty_r. reflexivity.
  - cbn [slashless] in Hs. apply andb_prop in Hs as [Ha Hs].
    cbn [split_path]. apply negb_true_iff in Ha. rewrite Ha, (IH _ Hs), append_assoc.
    reflexivity.
Qed.

Lemma segment_slashless (s : string) : segment s = true -> slashless s = true.
Proof. unfold segment. intros H. repeat (apply andb_prop in H as [H _]). exact H. Qed.

Lemma split_join (segs : list string) :
  Forall (fun s => segment s = true) segs -> segs <> [] ->
  split_path "" (join_path segs) = segs.
Proof.
  induction 1 as [|x segs Hx Hsegs IH]; intros Hne; [contradiction|].
  destruct segs as [|y segs].
  - cbn [join_path]. rewrite split_path_slashless by (apply segment_slashless, Hx). reflexivity.
  - change (join_path (x :: y :: segs)) with (x +:+ String "/" (join_path (y :: segs))).
    rewrite split_path_slash, IH by discriminate.
    rewrite split_path_slashless by (apply segment_slashless, Hx). reflexivity.
Qed.

Lemma normalize_segments (segs acc : list string) :
  Forall (fun s => segment s = true) segs ->
  foldl normalize_step acc segs = (acc ++ segs)%list.
Proof.
  intros Hsegs. revert acc. induction Hsegs as [|x segs Hx _ IH]; intros acc.
  - rewrite app_nil_r. reflexivity.
  - cbn [foldl]. unfold normalize_step at 2. unfold segment in Hx.
    apply andb_prop in Hx as [Hx H2]. apply andb_prop in Hx as [Hx H1].
    apply andb_prop in Hx as [_ H0].
    apply negb_true_iff in H0, H1, H2. rewrite H0, H1, H2. cbn [orb].
    rewrite IH, <- app_assoc. reflexivity.
Qed.

Lemma join_path_snoc (segs : list string) (name : string) :
  segs <> [] -> join_path (segs ++ [name]) = join_path segs +:+ "/" +:+ name.
Proof.
  induction segs as [|x segs IH]; intros Hne; [contradiction|].
  destruct segs as [|y segs]; [reflexivity|].
  change (join_path ((x :: y :: segs) ++ [name]))
    with (x +:+ "/" +:+ join_path ((y :: segs) ++ [name])).
  rewrite IH by discriminate.
  change (join_path (x :: y :: segs)) with (x +:+ "/" +:+ join_path (y :: segs)).
  rewrite !append_assoc. reflexivity.
Qed.

Lemma segment_relative (s rest : string) :
  segment s = true -> startsWith "/" (s +:+ rest) = false.
Proof.
  unfold segment. destruct s as [|a s]; [discriminate|]. cbn [slashless].
  intros H. repeat (apply andb_prop in H as [H _]). apply negb_true_iff in H.
  unfold startsWith. change (String a s +:+ rest) with (String a (s +:+ rest)).
  cbn [strip]. rewrite Ascii.eqb_sym, H. reflexivity.
Qed.

(** A relative path of plain components, resolved against a normalized
    directory, is the directory followed by the components. *)
Lemma path_resolve_join (root segs : list string) :
  Forall (fun s => segment s = true) root ->
  Forall (fun s => segment s = true) segs -> segs <> [] ->
  path_resolve ("/" +:+ join_path root) (join_path segs) = "/" +:+ join_path (root ++ segs).
Proof.
  intros Hroot Hsegs Hne. unfold path_resolve.
  assert (startsWith "/" (join_path segs) = false) as ->.
  { destruct Hsegs as [|x segs Hx _]; [contradiction|].
    destruct segs; [rewrite <- (append_empty_r x)|]; apply segment_relative, Hx. }
  f_equal. f_equal.
  change (("/" +:+ join_path root) +:+ "/" +:+ join_path segs)
    with (String "/" (join_path root +:+ String "/" (join_path segs))).
  change (split_path "" (String "/" ?s)) with ("" :: split_path "" s).
  rewrite split_path_slash, (split_join segs Hsegs Hne).
  cbn [foldl]. change (normalize_step [] "") with (@nil string).
  rewrite foldl_app.
  destruct root as [|r root'].
  - cbn [join_path split_path foldl]. change (normalize_step [] "") with (@nil string).
    apply normalize_segments, Hsegs.
  - rewrite (split_join (r :: root') Hroot) by discriminate.
    rewrite (normalize_segments (r :: root') [] Hroot), app_nil_l.
    apply normalize_segments, Hsegs.
Qed.

(** A normalized absolute path resolves to itself, whatever the
    directory. *)
Lemma path_resolve_absolute (from : string) (segs : list string) :
  Forall (fun s => segment s = true) segs ->
  path_resolve from ("/" +:+ join_path segs) = "/" +:+ join_path segs.
Proof.
  intros Hsegs. unfold path_resolve.
  change (startsWith "/" ("/" +:+ join_path segs)) with true. cbv iota.
  f_equal. f_equal.
  change (split_path "" ("/" +:+ join_path segs)) with ("" :: split_path "" (join_path segs)).
  cbn [foldl]. change (normalize_step [] "") with (@nil string).
  destruct segs as [|x segs]; [reflexivity|].
  rewrite (split_join (x :: segs) Hsegs) by discriminate.
  apply (normalize_segments (x :: segs) [] Hsegs).
Qed.
End path_resolution.

Section stored_names.
Import JS Store Upload Facts.

Lemma lower_slashes (a : ascii) :
  Ascii.eqb (lower a) "/" = Ascii.eqb a "/" /\ Ascii.eqb (lower a) "\" = Ascii.eqb a "\".
Proof. destruct a as [[] [] [] [] [] [] [] []]; split; reflexivity. Qed.

Lemma plain_app (a b : string) : plain (a +:+ b) = plain a && plain b.
Proof.
  induction a as [|x a IH]; [reflexivity|].
  change (plain (String x (a +:+ b)) = plain (String x a) && plain b).
  cbn [plain]. rewrite IH, !andb_assoc. reflexivity.
Qed.

Lemma plain_lower (s : string) : plain (toLowerCase s) = plain s.
Proof.
  induction s as [|a s IH]; [reflexivity|].
  cbn [toLowerCase plain].
  rewrite IH, (proj1 (lower_slashes a)), (proj2 (lower_slashes a)). reflexivity.
Qed.

Lemma plain_slashless (s : string) : plain s = true -> slashless s = true.
Proof.
  induction s as [|a s IH]; [reflexivity|]. cbn [plain slashless]. intros H.
  apply andb_prop in H as [H Hs]. apply andb_prop in H as [Ha _].
  rewrite Ha, (IH Hs). reflexivity.
Qed.

Lemma slashes_plain (s : string) : plain s = true -> slashes s = s.
Proof.
  induction s as [|a s IH]; [reflexivity|]. cbn [plain slashes]. intros H.
  apply andb_prop in H as [H Hs]. apply andb_prop in H as [_ Ha].
  apply negb_true_iff in Ha. rewrite Ha, (IH Hs). reflexivity.
Qed.

Lemma slashes_app (a b : string) : slashes (a +:+ b) = slashes a +:+ slashes b.
Proof.
  induction a as [|x a IH]; [reflexivity|].
  change (slashes (String x (a +:+ b)) = slashes (String x a) +:+ slashes b).
  cbn [slashes]. rewrite IH. reflexivity.
Qed.

Lemma last_segment_plain (s : string) : plain s = true -> last_segment s = s.
Proof.
  intros Hs. unfold last_segment.
  rewrite (split_path_slashless s "" (plain_slashless s Hs)).
  change ("" +:+ s) with s. destruct s; reflexivity.
Qed.

Lemma from_last_dot_plain (s e : string) :
  from_last_dot s = Some e -> plain s = true -> plain e = true.
Proof.
  revert e. induction s as [|a s IH]; intros e; [discriminate|].
  cbn [from_last_dot]. intros He Hs.
  destruct (from_last_dot s) as [e'|] eqn:Hrest.
  - injection He as <-. apply (IH e' eq_refl). cbn [plain] in Hs.
    apply andb_prop in Hs as [_ Hs]. exact Hs.
  - destruct (Ascii.eqb a "."); [|discriminate]. injection He as <-. exact Hs.
Qed.

Lemma extname_plain (s : string) : plain s = true -> plain (extname s) = true.
Proof.
  intros Hs. unfold extname. rewrite (last_segment_plain s Hs).
  destruct s as [|a rest]; [reflexivity|].
  destruct (String.eqb (String a rest) ".."); [reflexivity|].
  destruct (from_last_dot rest) as [e|] eqn:He; [|reflexivity].
  apply (from_last_dot_plain rest e He). cbn [plain] in Hs.
  apply andb_prop in Hs as [_ Hs]. exact Hs.
Qed.

Lemma strip_suffix_plain (suffix s stem : string) :
  strip_suffix suffix s = Some stem -> plain s = true -> plain stem = true.
Proof.
  revert stem. induction s as [|a s IH]; intros stem.
  - cbn [strip_suffix]. destruct (String.eqb "" suffix); [|discriminate].
    intros [= <-] _. reflexivity.
  - cbn [strip_suffix]. destruct (String.eqb (String a s) suffix).
    + intros [= <-] _. reflexivity.
    + destruct (strip_suffix suffix s) as [stem'|]; [|discriminate].
      intros [= <-]. cbn [plain]. intros H. apply andb_prop in H as [Ha Hs].
      rewrite Ha, (IH stem' eq_refl Hs). reflexivity.
Qed.

Lemma basename_plain (s suffix : string) : plain s = true -> plain (basename s suffix) = true.
Proof.
  intros Hs. unfold basename.
  destruct (String.eqb suffix s); [reflexivity|].
  rewrite (last_segment_plain s Hs).
  destruct (strip_suffix suffix s) as [stem|] eqn:Hstem; [|exact Hs].
  destruct stem; [exact Hs|]. apply (strip_suffix_plain suffix s _ Hstem Hs).
Qed.

Lemma dashed_segment (a b : string) :
  plain a = true -> plain b = true -> segment (a +:+ "-" +:+ b) = true.
Proof.
  intros Ha Hb. unfold segment.
  rewrite plain_slashless by (rewrite !plain_app, Ha, Hb; reflexivity).
  destruct a as [|x [|y [|z a]]]; [reflexivity| | |].
  - change (String x "" +:+ "-" +:+ b) with (String x (String "-" b)).
    cbn [String.eqb andb negb]. destruct (Ascii.eqb x "."); reflexivity.
  - change (String x (String y "") +:+ "-" +:+ b) with (String x (String y (String "-" b))).
    cbn [String.eqb andb negb].
    destruct (Ascii.eqb x "."), (Ascii.eqb y "."); reflexivity.
  - change (String x (String y (String z a)) +:+ "-" +:+ b)
      with (String x (String y (String z (a +:+ "-" +:+ b)))).
    cbn [String.eqb andb negb].
    destruct (Ascii.eqb x "."), (Ascii.eqb y "."); reflexivity.
Qed.

(** The stored name of a file whose own name and stamp have no slash is
    one path component. *)
Lemma filename_segment (file : upload) :
  plain (originalname file) = true -> plain (stamp file) = true ->
  plain (filename file) = true /\ segment (filename file) = true.
Proof.
  intros Hname Hstamp. unfold filename.
  assert (Hext : plain (toLowerCase (extname (originalname file))) = true)
    by (rewrite plain_lower; apply extname_plain, Hname).
  assert (Hbase : plain (basename (originalname file)
                           (toLowerCase (extname (originalname file)))) = true)
    by apply basename_plain, Hname.
  split.
  - rewrite !plain_app, Hbase, Hstamp, Hext. reflexivity.
  - apply dashed_segment; [exact Hbase|]. rewrite plain_app, Hstamp, Hext. reflexivity.
Qed.

(** The path an upload route hands back leads [path.resolve] to the file
    it stored. *)
Lemma web_path_resolves (field : string) (file : upload) (root : list string) :
  field ∈ ["icon"; "images"; "userAvatar"; "reviewImages"] ->
  fieldname file = field ->
  plain (originalname file) = true -> plain (stamp file) = true ->
  Forall (fun s => segment s = true) root ->
  path_resolve ("/" +:+ join_path root) (web_path (folder field) (filename file))
  = disk_path ("/" +:+ join_path root) file.
Proof.
  intros Hfield Hown Hname Hstamp Hroot.
  destruct (filename_segment file Hname Hstamp) as [Hplain Hseg].
  unfold disk_path. rewrite Hown.
  assert (Hfolder : segment (folder field) = true /\
    web_path (folder field) (filename file)
    = join_path ["uploads"; folder field; filename file]).
  { unfold web_path.
    repeat (apply elem_of_cons in Hfield as [->|Hfield];
            [split; [reflexivity|];
             rewrite !slashes_app, (slashes_plain _ Hplain); reflexivity|]).
    apply elem_of_nil in Hfield. contradiction. }
  destruct Hfolder as [Hfolder ->].
  rewrite (path_resolve_join root ["uploads"; folder field; filename file]);
    [|exact Hroot|repeat constructor; assumption|discriminate].
  assert (Hup : path_resolve ("/" +:+ join_path root) "uploads"
                = "/" +:+ join_path (root ++ ["uploads"])).
  { apply (path_resolve_join root ["uploads"]);
      [exact Hroot|repeat constructor|discriminate]. }
  assert (Hdir : path_resolve ("/" +:+ join_path (root ++ ["uploads"])) (folder field)
                 = "/" +:+ join_path ((root ++ ["uploads"]) ++ [folder field])).
  { apply (path_resolve_join (root ++ ["uploads"]) [folder field]);
      [apply Forall_app; split; [exact Hroot|repeat constructor]
      |repeat constructor; exact Hfolder|discriminate]. }
  rewrite Hup, Hdir.
  rewrite append_assoc, <- join_path_snoc by (destruct root; discriminate).
  rewrite <- !app_assoc. reflexivity.
Qed.
End stored_names.

Section file_deletion.
Import JS Store Api Upload Housekeeping Contract Facts.

Lemma delete_file_run (b : json) (p : string) (d : disk) :
  field "filePath" b = Some (JStr p) -> p <> "" ->
  delete_file (Some b) d =
    if decide (path_resolve (dirname d) p ∈ files d)
    then (Envelope 200 "File deleted successfully" (Some (naming p)),
          set_files (files d ∖ {[ path_resolve (dirname d) p ]}) d)
    else (Envelope 404 "File does not exist or deletion failed" (Some (naming p)), d).
Proof.
  intros Hfield Hp. unfold delete_file. destruct b; try discriminate Hfield.
  rewrite Hfield. change (default JNull (Some (JStr p))) with (JStr p).
  cbn [to_boolean truthy].
  apply String.eqb_neq in Hp. rewrite Hp. cbn [negb]. unfold deleteFileIfExist.
  destruct (decide (path_resolve (dirname d) p ∈ files d)); reflexivity.
Qed.

(** X19.  DELETE /api/delete/file with a non-empty string for
    [filePath] resolves it against the server directory: the answer is
    the code-200 envelope when a file is there and the code-404 envelope
    when none is, both echoing the path; afterwards the file is gone,
    the two documents are as before, and asking again gives 404. *)
Theorem delete_file_answer (b : json) (p : string) (d : disk) :
  field "filePath" b = Some (JStr p) ->
  p <> "" ->
  ~ is_data_file d (path_resolve (dirname d) p) ->
  let path := path_resolve (dirname d) p in
  let out := delete_file (Some b) d in
  (path ∈ files d ->
     out.1 = Envelope 200 "File deleted successfully" (Some (naming p))) /\
  (path ∉ files d ->
     out.1 = Envelope 404 "File does not exist or deletion failed" (Some (naming p))) /\
  files out.2 = files d ∖ {[ path ]} /\
  restaurant_json out.2 = restaurant_json d /\
  comments_json out.2 = comments_json d /\
  delete_file (Some b) out.2 =
    (Envelope 404 "File does not exist or deletion failed" (Some (naming p)), out.2).
Proof.
  intros Hfield Hp _ path out. subst out. rewrite (delete_file_run b p d Hfield Hp).
  fold path.
  destruct (decide (path ∈ files d)) as [Hin|Hout]; cbn [fst snd].
  - split; [reflexivity|]. split; [contradiction|]. split; [reflexivity|].
    split; [reflexivity|]. split; [reflexivity|].
    rewrite (delete_file_run b p _ Hfield Hp).
    change (dirname (set_files (files d ∖ {[path]}) d)) with (dirname d). fold path.
    change (files (set_files (files d ∖ {[path]}) d)) with (files d ∖ {[path]}).
    destruct (decide (path ∈ files d ∖ {[path]})) as [Hin'|_]; [|reflexivity].
    apply elem_of_difference in Hin' as [_ Hnot]. exfalso. apply Hnot, elem_of_singleton.
    reflexivity.
  - split; [contradiction|]. split; [reflexivity|]. split.
    { apply set_eq. intros x. rewrite elem_of_difference, elem_of_singleton.
      split; [intros Hx; split; [exact Hx|congruence]|tauto]. }
    split; [reflexivity|]. split; [reflexivity|].
    rewrite (delete_file_run b p d Hfield Hp). fold path.
    destruct (decide (path ∈ files d)); [contradiction|reflexivity].
Qed.

Lemma delete_file_answer_witness :
  (delete_file (Some (naming "uploads/icons/logo.png")) with_ann).1 =
    Envelope 200 "File deleted successfully" (Some (naming "uploads/icons/logo.png")) /\
  files (delete_file (Some (naming "uploads/icons/logo.png")) with_ann).2 =
    {[ "/srv/app/uploads/avatars/ann.png"; "/srv/app/uploads/review-images/r1.jpg" ]}.
Proof.
  destruct (delete_file_answer (naming "uploads/icons/logo.png") "uploads/icons/logo.png"
              with_ann) as (Hfound & _ & Hfiles & _).
  - reflexivity.
  - discriminate.
  - intros [Hdoc|Hdoc]; vm_compute in Hdoc; discriminate Hdoc.
  - split; [apply Hfound; vm_compute; reflexivity|]. rewrite Hfiles. vm_compute. reflexivity.
Defined.

(** X20.  Whatever the body, DELETE /api/delete/file answers with an
    envelope whose code is 200, 400, 404 or 500 (a missing or null body
    is caught and answered with 500), and unless the code is 200 the
    disk is left as it was. *)
Theorem delete_file_envelope (body : value) (d : disk) :
  exists code msg data,
    (delete_file body d).1 = Envelope code msg data /\
    code ∈ [200; 400; 404; 500] /\
    (code <> 200 -> (delete_file body d).2 = d).
Proof.
  destruct body as [b|]; [|do 3 eexists; split; [reflexivity|]; split; [in_list|reflexivity]].
  destruct b; unfold delete_file;
    try (do 3 eexists; split; [reflexivity|]; split; [in_list|reflexivity]; fail);
    cbv zeta;
    (match goal with |- context [negb ?c] => destruct (negb c) end;
     [do 3 eexists; split; [reflexivity|]; split; [in_list|reflexivity]|]);
    (match goal with |- context [deleteFileIfExist ?filePath d] =>
       destruct filePath as [| | |p| |]; cbn [deleteFileIfExist] end;
     try (do 3 eexists; split; [reflexivity|]; split; [in_list|reflexivity]; fail));
    destruct (decide (path_resolve (dirname d) p ∈ files d));
    do 3 eexists; (split; [reflexivity|]); (split; [in_list|]);
    first [intros H; contradiction|reflexivity].
Qed.

Lemma delete_file_envelope_witness :
  exists code msg data,
    (delete_file None with_ann).1 = Envelope code msg data /\
    code ∈ [200; 400; 404; 500] /\
    (code <> 200 -> (delete_file None with_ann).2 = with_ann).
Proof. exact (delete_file_envelope None with_ann). Defined.

(** X21.  The path an upload route answers with names the file it
    stored: for an accepted file whose name and stamp have no slash or
    backslash, on a server in a normalized directory, the path resolves
    to the stored file, and DELETE /api/delete/file with it answers 200
    and removes that file, so that the disk holds what it held before
    the upload (less any older file under that name). *)
Theorem upload_then_delete (field : string)
    (endpoint : list upload -> disk -> response * disk)
    (file : upload) (root : list string) (d : disk) :
  (field, endpoint) ∈ endpoints ->
  acceptable field file ->
  plain (originalname file) = true -> plain (stamp file) = true ->
  dirname d = "/" +:+ join_path root -> Forall (fun s => segment s = true) root ->
  let link := web_path (folder field) (filename file) in
  path_resolve (dirname d) link = disk_path (dirname d) file /\
  delete_file (Some (naming link)) (endpoint [file] d).2 =
    (Envelope 200 "File deleted successfully" (Some (naming link)),
     set_files (files d ∖ {[ disk_path (dirname d) file ]}) d).
Proof.
  intros Hroute Hok Hname Hstamp Hdir Hroot link.
  destruct (endpoint_route field endpoint Hroute) as (maxCount & handler & Hcount & -> & Hfield).
  assert (Hlink : path_resolve (dirname d) link = disk_path (dirname d) file).
  { rewrite Hdir. apply web_path_resolves; [exact Hfield|apply Hok|assumption..]. }
  split; [exact Hlink|].
  rewrite route_accepts; [|lia|exact Hfield|exact Hok]. cbn [snd].
  rewrite (delete_file_run (naming link) link); [|reflexivity|discriminate].
  change (dirname (set_files ?X d)) with (dirname d).
  change (files (set_files ?X d)) with X.
  rewrite Hlink. rewrite decide_True by (apply elem_of_union_r, elem_of_singleton; reflexivity).
  f_equal. destruct d as [profile reviews stored can root']. unfold set_files.
  cbn [files restaurant_json comments_json writable dirname]. f_equal.
  apply set_eq. intros x. rewrite !elem_of_difference, elem_of_union. tauto.
Qed.

Lemma upload_then_delete_witness :
  delete_file (Some (naming "uploads/icons/Logo.PNG-1765700000000-k3j9x2ab.png"))
    (upload_icon [logo] with_ann).2 =
    (Envelope 200 "File deleted successfully"
       (Some (naming "uploads/icons/Logo.PNG-1765700000000-k3j9x2ab.png")),
     with_ann).
Proof.
  destruct (upload_then_delete "icon" upload_icon logo ["srv"; "app"] with_ann)
    as (_ & Hdeleted).
  - unfold endpoints. in_list.
  - split; [discriminate|]. split; [reflexivity|]. split; [|discriminate].
    unfold allowedExts. in_list.
  - reflexivity.
  - reflexivity.
  - reflexivity.
  - repeat constructor.
  - refine (eq_trans _ (eq_trans Hdeleted _)); [reflexivity|].
    f_equal; vm_compute; reflexivity.
Defined.

(** X22.  DELETE /api/delete/file is not confined to the upload
    directories: an absolute path is taken as it is, so any regular
    file of the disk can be named, and is removed with the code-200
    answer. *)
Theorem delete_file_any_path (segs : list string) (d : disk) :
  Forall (fun s => segment s = true) segs ->
  let path := "/" +:+ join_path segs in
  ~ is_data_file d path ->
  path ∈ files d ->
  delete_file (Some (naming path)) d =
    (Envelope 200 "File deleted successfully" (Some (naming path)),
     set_files (files d ∖ {[ path ]}) d).
Proof.
  intros Hsegs path _ Hin.
  rewrite (delete_file_run (naming path) path); [|reflexivity|discriminate].
  unfold path. rewrite (path_resolve_absolute (dirname d) segs Hsegs). fold path.
  rewrite decide_True by exact Hin. reflexivity.
Qed.

Lemma delete_file_any_path_witness :
  delete_file (Some (naming "/srv/app/server.js")) with_source =
    (Envelope 200 "File deleted successfully" (Some (naming "/srv/app/server.js")), seeded).
Proof.
  refine (eq_trans _ (eq_trans
            (delete_file_any_path ["srv"; "app"; "server.js"] with_source _ _ _) _)).
  - reflexivity.
  - repeat constructor.
  - intros [Hdoc|Hdoc]; vm_compute in Hdoc; discriminate Hdoc.
  - vm_compute. reflexivity.
  - f_equal; vm_compute; reflexivity.
Defined.
End file_deletion.

(** ** Refusing and failing on reviews *)

Section more_comments.
Import JS Store Api Contract Facts.

(** X9.  POST /api/comments answers with the code-400 envelope, and
    leaves the disk as it is, exactly when the body is missing or its
    content or its rating is falsy (absent, empty, zero, null, false):
    with both truthy the answer is never a code-400 envelope. *)
Theorem post_comment_rejects (body : value) (d : disk) :
  (to_boolean (supplied "content" body) = false \/
   to_boolean (supplied "rating" body) = false ->
   post_comment body d = (Envelope 400 "Comment content and rating cannot be empty" None, d)) /\
  (to_boolean (supplied "content" body) = true ->
   to_boolean (supplied "rating" body) = true ->
   forall msg data, (post_comment body d).1 <> Envelope 400 msg data).
Proof.
  unfold post_comment, supplied. split.
  - intros Hfalsy. destruct body as [b|]; [|reflexivity].
    change (default JNull (Some b)) with b.
    destruct Hfalsy as [-> | ->]; cbn [negb]; rewrite ?orb_true_r; reflexivity.
  - intros Hc Hr msg data. destruct body as [b|]; [|discriminate].
    change (default JNull (Some b)) with b. rewrite Hc, Hr.
    assert (to_boolean (Some b) = true) as ->.
    { destruct b; try discriminate. reflexivity. }
    cbn [negb orb]. unfold writeJsonFile.
    destruct (parseInt (field "rating" b)); [|discriminate].
    destruct (writable d); cbn [fst]; intros H; injection H as H _; discriminate.
Qed.

Lemma post_comment_rejects_witness :
  post_comment (Some (obj [("content", JStr "Great!"); ("rating", num 0)])) seeded =
    (Envelope 400 "Comment content and rating cannot be empty" None, seeded) /\
  (post_comment (Some (obj [("content", JStr "Great!"); ("rating", num 5)])) seeded).1
    <> Envelope 400 "Comment content and rating cannot be empty" None.
Proof.
  split.
  - apply (proj1 (post_comment_rejects _ seeded)). right. reflexivity.
  - apply (proj2 (post_comment_rejects _ seeded)); reflexivity.
Defined.

Lemma delete_comment_run (index_param : string) (i : nat) (review : json) (d : disk) :
  parseInt_string index_param = Some (Z.of_nat i) ->
  load_comments d !! i = Some review ->
  review <> JNull ->
  delete_comment index_param d =
    if writable d then
      (Envelope 200 "Comment deleted successfully" (Some (JArr (delete i (load_comments d)))),
       set_comments (delete i (load_comments d)) (delete_each (referenced_paths review) d))
    else
      (Envelope 500 "Comment deletion failed" None, delete_each (referenced_paths review) d).
Proof.
  intros Hi Hrev Hnull.
  assert (Hlt : (i < length (load_comments d))%nat) by (eapply lookup_lt_Some; exact Hrev).
  unfold delete_comment. rewrite Hi.
  assert (invalid_index (Some (Z.of_nat i)) (length (load_comments d)) = false) as ->.
  { cbn. destruct (Z.ltb_spec (Z.of_nat i) 0); [lia|].
    destruct (Z.geb_spec (Z.of_nat i) (Z.of_nat (length (load_comments d)))); [lia|reflexivity]. }
  assert (at_index (Some (Z.of_nat i)) (load_comments d) = Some review) as ->.
  { cbn. destruct (Z.ltb_spec (Z.of_nat i) 0); [lia|]. rewrite Nat2Z.id. exact Hrev. }
  assert (splice1 (Some (Z.of_nat i)) (load_comments d) = delete i (load_comments d)) as ->.
  { unfold splice1. destruct (Z.ltb_spec (Z.of_nat i) 0); [lia|].
    rewrite Z.min_l by lia. rewrite Nat2Z.id. reflexivity. }
  assert (Hprop : forall k, prop k (Some review) = Ok (field k review)).
  { intros k. destruct review; try reflexivity. contradiction. }
  rewrite !Hprop.
  assert (Hd2 : (if to_boolean (field "userAvatar" review)
                 then (deleteFileIfExist (default JNull (field "userAvatar" review))
                         (match isArray (field "reviewImages" review) with
                          | Some paths => delete_each paths d
                          | None => d
                          end)).2
                 else match isArray (field "reviewImages" review) with
                      | Some paths => delete_each paths d
                      | None => d
                      end) = delete_each (referenced_paths review) d).
  { unfold referenced_paths, delete_each. rewrite foldl_app.
    destruct (isArray (field "reviewImages" review));
      destruct (to_boolean (field "userAvatar" review)); reflexivity. }
  rewrite Hd2. unfold writeJsonFile.
  destruct (delete_each_frame (referenced_paths review) d) as (_ & _ & -> & _).
  destruct (writable d); reflexivity.
Qed.

(** X10.  Adding a review and then deleting index 0 gives back the
    review list that was stored before, in the answer and on disk; of
    the files, the ones the added review names (its review images and
    its avatar) are gone. *)
Theorem post_then_delete (newComment : json) (p : option Z) (d : disk) :
  writable d = true ->
  to_boolean (field "content" newComment) = true ->
  to_boolean (field "rating" newComment) = true ->
  parseInt (field "rating" newComment) = Ok p ->
  let posted := (post_comment (Some newComment) d).2 in
  (delete_comment "0" posted).1 =
    Envelope 200 "Comment deleted successfully" (Some (JArr (load_comments d))) /\
  load_comments (delete_comment "0" posted).2 = load_comments d /\
  files (delete_comment "0" posted).2 =
    files d ∖ resolved (dirname d) (referenced_paths (commentToAdd newComment p)).
Proof.
  intros Hw Hc Hr Hp posted. subst posted.
  rewrite (post_comment_run newComment p d Hw Hc Hr Hp). cbn [snd].
  rewrite (delete_comment_run "0" 0 (commentToAdd newComment p)); try reflexivity;
    [|discriminate].
  change (writable (set_comments (commentToAdd newComment p :: load_comments d) d))
    with (writable d). rewrite Hw.
  change (load_comments (set_comments (commentToAdd newComment p :: load_comments d) d))
    with (commentToAdd newComment p :: load_comments d).
  cbn [delete list_delete fst snd]. split; [reflexivity|]. split; [reflexivity|].
  cbn [set_comments files]. rewrite delete_each_files. reflexivity.
Qed.

Lemma post_then_delete_witness :
  (delete_comment "0" (post_comment (Some ann) with_ann).2).1 =
    Envelope 200 "Comment deleted successfully" (Some (JArr (ann :: defaultComments))) /\
  files (delete_comment "0" (post_comment (Some ann) with_ann).2).2 =
    {[ "/srv/app/uploads/icons/logo.png" ]}.
Proof.
  destruct (post_then_delete ann (Some 5) with_ann) as (Hanswer & _ & Hfiles);
    [reflexivity | reflexivity | reflexivity | reflexivity |].
  split; [exact Hanswer|]. rewrite Hfiles. vm_compute. reflexivity.
Defined.

(** X11.  DELETE /api/comments/:index is not atomic: when the review
    list cannot be written, the answer is the code-500 envelope and the
    stored list still holds the review, but the files the review names
    (none of them one of the two documents) have been removed all the
    same. *)
Theorem delete_comment_not_atomic (index_param : string) (i : nat) (review : json) (d : disk) :
  writable d = false ->
  parseInt_string index_param = Some (Z.of_nat i) ->
  load_comments d !! i = Some review ->
  review <> JNull ->
  spares_documents d (referenced_paths review) ->
  let out := delete_comment index_param d in
  out.1 = Envelope 500 "Comment deletion failed" None /\
  comments_json out.2 = comments_json d /\
  files out.2 = files d ∖ resolved (dirname d) (referenced_paths review).
Proof.
  intros Hw Hi Hrev Hnull _ out. subst out.
  rewrite (delete_comment_run index_param i review d Hi Hrev Hnull), Hw. cbn [fst snd].
  split; [reflexivity|]. split; [apply delete_each_frame|apply delete_each_files].
Qed.

Lemma delete_comment_not_atomic_witness :
  (delete_comment "0" read_only).1 = Envelope 500 "Comment deletion failed" None /\
  comments_json (delete_comment "0" read_only).2 = Some (ann :: defaultComments) /\
  files (delete_comment "0" read_only).2 = {[ "/srv/app/uploads/icons/logo.png" ]}.
Proof.
  destruct (delete_comment_not_atomic "0" 0 ann read_only) as (Hanswer & Hlist & Hfiles);
    [reflexivity | reflexivity | reflexivity | discriminate | |].
  - intros p Hp.
    change (referenced_paths ann)
      with [JStr "uploads/review-images/r1.jpg"; JStr "uploads/avatars/ann.png"] in Hp.
    repeat (apply elem_of_cons in Hp as [Hp|Hp];
            [injection Hp as ->; intros [Hdoc|Hdoc]; vm_compute in Hdoc; discriminate Hdoc|]).
    apply elem_of_nil in Hp. contradiction.
  - split; [exact Hanswer|]. split; [exact Hlist|]. rewrite Hfiles. vm_compute. reflexivity.
Defined.

(** X12.  When the review list cannot be written, PUT /api/comments with
    an array and POST /api/comments with an acceptable review both
    answer with a code-500 envelope and leave the disk as it was. *)
Theorem comments_write_failure (d : disk) :
  writable d = false ->
  (forall newComments,
     put_comments (Some (JArr newComments)) d =
       (Envelope 500 "Comments update failed" None, d)) /\
  (forall newComment p,
     to_boolean (field "content" newComment) = true ->
     to_boolean (field "rating" newComment) = true ->
     parseInt (field "rating" newComment) = Ok p ->
     post_comment (Some newComment) d = (Envelope 500 "Comment save failed" None, d)).
Proof.
  intros Hw. split.
  - intros newComments. unfold put_comments, writeJsonFile. cbn [isArray].
    rewrite Hw. reflexivity.
  - intros newComment p Hc Hr Hp. unfold post_comment, writeJsonFile.
    change (default JNull (Some newComment)) with newComment.
    change (to_boolean (Some newComment)) with (truthy newComment).
    rewrite Hc, Hr, Hp, Hw.
    assert (truthy newComment = true) as ->; [|reflexivity].
    destruct newComment; try discriminate. reflexivity.
Qed.

Lemma comments_write_failure_witness :
  put_comments (Some (JArr [])) read_only =
    (Envelope 500 "Comments update failed" None, read_only) /\
  post_comment (Some ann) read_only = (Envelope 500 "Comment save failed" None, read_only).
Proof.
  destruct (comments_write_failure read_only) as (Hput & Hpost); [reflexivity|].
  split; [apply Hput|]. apply (Hpost ann (Some 5)); reflexivity.
Defined.
End more_comments.

(** ** Saving the profile *)

Section more_restaurant.
Import JS Store Api Contract Facts.

Lemma post_restaurant_files (payload : json) (r : number) (d : disk) :
  truthy payload = true ->
  parseFloat (field "rating" payload) = Ok r ->
  let deleted := default [] (isArray (field "deletedImages" payload)) in
  post_restaurant (Some payload) d =
    if writable d then
      (Envelope 200 "Configuration saved successfully" (Some (finalConfig payload r)),
       set_restaurant (finalConfig payload r) (delete_each deleted d))
    else
      (Envelope 500 "Configuration save failed, please check server permissions" None,
       delete_each deleted d).
Proof.
  intros Ht Hr deleted. subst deleted. unfold post_restaurant, writeJsonFile.
  change (to_boolean (Some payload)) with (truthy payload). rewrite Ht. cbn [negb].
  change (default JNull (Some payload)) with payload.
  destruct (isArray (field "deletedImages" payload)) as [deletedImages|]; cbn [default].
  - rewrite field_delete_field by discriminate. rewrite Hr, finalConfig_delete.
    destruct (delete_each_frame deletedImages d) as (_ & _ & -> & _).
    destruct (writable d); reflexivity.
  - rewrite Hr. destruct (writable d); reflexivity.
Qed.

(** X13.  POST /api/restaurant removes the files listed under
    [deletedImages] before it writes the profile, and nothing else: the
    reviews stay, and when the profile cannot be written the answer is
    the code-500 envelope, the stored profile is the old one and the
    files are gone all the same. *)
Theorem post_restaurant_deletes (payload : json) (r : number) (d : disk) :
  truthy payload = true ->
  parseFloat (field "rating" payload) = Ok r ->
  spares_documents d (default [] (isArray (field "deletedImages" payload))) ->
  let out := post_restaurant (Some payload) d in
  files out.2 =
    files d ∖ resolved (dirname d) (default [] (isArray (field "deletedImages" payload))) /\
  comments_json out.2 = comments_json d /\
  (writable d = false ->
   out.1 = Envelope 500 "Configuration save failed, please check server permissions" None /\
   restaurant_json out.2 = restaurant_json d).
Proof.
  intros Ht Hr _ out. subst out. rewrite (post_restaurant_files payload r d Ht Hr).
  destruct (writable d); cbn [fst snd set_restaurant files comments_json restaurant_json].
  - split; [apply delete_each_files|]. split; [apply delete_each_frame|discriminate].
  - split; [apply delete_each_files|]. split; [apply delete_each_frame|].
    intros _. split; [reflexivity|apply delete_each_frame].
Qed.

Lemma post_restaurant_deletes_witness :
  files (post_restaurant (Some cafe) read_only).2 =
    {[ "/srv/app/uploads/avatars/ann.png"; "/srv/app/uploads/review-images/r1.jpg" ]} /\
  (post_restaurant (Some cafe) read_only).1 =
    Envelope 500 "Configuration save failed, please check server permissions" None.
Proof.
  destruct (post_restaurant_deletes cafe (Fin (42 # 10)) read_only)
    as (Hfiles & _ & Hfail); [reflexivity | reflexivity | |].
  - intros p Hp.
    change (default [] (isArray (field "deletedImages" cafe)))
      with [JStr "uploads/icons/logo.png"] in Hp.
    apply list_elem_of_singleton in Hp. injection Hp as ->.
    intros [Hdoc|Hdoc]; vm_compute in Hdoc; discriminate Hdoc.
  - split; [|apply Hfail; reflexivity]. rewrite Hfiles. vm_compute. reflexivity.
Defined.



End more_restaurant.

(** ** The sorted list *)

Section sort_stable.
Import JS Sorter Contract.
Context {A : Type} (comparefn : A -> A -> result number) (score : A -> Q) (good : A -> Prop).
Hypothesis comparefn_score : forall x y, good x -> good y ->
  exists v, comparefn x y = Ok v /\ (negative v = true <-> (score x < score y)%Q).

Lemma filter_above (q : Q) (x : A) (l : list A) :
  Qeq_bool (score x) q = true ->
  Forall (fun y => (score x < score y)%Q) l ->
  List.filter (fun z => Qeq_bool (score z) q) l = [].
Proof.
  intros Hx. induction 1 as [|y l Hy _ IH]; [reflexivity|].
  cbn [List.filter]. rewrite IH.
  destruct (Qeq_bool (score y) q) eqn:Hyq; [|reflexivity].
  apply Qeq_bool_iff in Hx, Hyq. rewrite Hx, Hyq in Hy. exfalso. revert Hy. apply Qlt_irrefl.
Qed.

Lemma sort_insert_stable (q : Q) (x : A) (sorted : list A) :
  good x -> Forall good sorted -> StronglySorted (nondecreasing score) sorted ->
  forall out, sort_insert comparefn x sorted = Ok out ->
    List.filter (fun z => Qeq_bool (score z) q) out =
    (List.filter (fun z => Qeq_bool (score z) q) sorted
     ++ List.filter (fun z => Qeq_bool (score z) q) [x])%list.
Proof.
  intros Hx. induction sorted as [|y ys IH]; intros Hgood Hsorted out.
  - cbn [sort_insert]. intros H. injection H as <-. reflexivity.
  - apply Forall_cons in Hgood as [Hy Hys].
    apply StronglySorted_cons in Hsorted as [Hhead Htail].
    destruct (comparefn_score x y Hx Hy) as (v & Hv & Hneg).
    cbn [sort_insert]. rewrite Hv. cbn [result_bind].
    destruct (negative v) eqn:Hsign.
    + intros H. injection H as <-.
      change (x :: y :: ys) with ([x] ++ y :: ys)%list. rewrite List.filter_app.
      destruct (Qeq_bool (score x) q) eqn:Hxq.
      * rewrite (filter_above q x (y :: ys) Hxq); [rewrite app_nil_r; reflexivity|].
        assert (Hxy : (score x < score y)%Q) by (apply Hneg; reflexivity).
        apply Forall_cons. split; [exact Hxy|].
        eapply Forall_impl; [exact Hhead|]. intros z Hz. unfold nondecreasing in Hz.
        eapply Qlt_le_trans; eassumption.
      * assert (List.filter (fun z => Qeq_bool (score z) q) [x] = []) as ->
          by (cbn [List.filter]; rewrite Hxq; reflexivity).
        rewrite app_nil_r. reflexivity.
    + destruct (sort_insert comparefn x ys) as [out'|e] eqn:Hins; cbn [result_bind];
        [|discriminate].
      intros H. injection H as <-.
      cbn [List.filter]. rewrite (IH Hys Htail out' eq_refl).
      destruct (Qeq_bool (score y) q); reflexivity.
Qed.

Lemma sort_from_stable (q : Q) (rest sorted : list A) :
  Forall good sorted -> Forall good rest -> StronglySorted (nondecreasing score) sorted ->
  forall out, sort_from comparefn sorted rest = Ok out ->
    List.filter (fun z => Qeq_bool (score z) q) out =
    (List.filter (fun z => Qeq_bool (score z) q) sorted
     ++ List.filter (fun z => Qeq_bool (score z) q) rest)%list.
Proof.
  revert sorted. induction rest as [|x rest IH]; intros sorted Hsg Hrest Hsorted out.
  - cbn [sort_from]. intros H. injection H as <-. rewrite app_nil_r. reflexivity.
  - apply Forall_cons in Hrest as [Hx Hrest].
    destruct (sort_insert_sorted comparefn score good comparefn_score x sorted Hx Hsg Hsorted)
      as (mid & Hmid & Hperm & Hss).
    cbn [sort_from]. rewrite Hmid. cbn [result_bind]. intros Hout.
    rewrite (IH mid) with (out := out); [| |exact Hrest|exact Hss|exact Hout].
    + rewrite (sort_insert_stable q x sorted Hx Hsg Hsorted mid Hmid).
      change (x :: rest) with ([x] ++ rest)%list.
      rewrite List.filter_app, app_assoc. reflexivity.
    + rewrite Hperm. apply Forall_cons. auto.
Qed.

(** The sort keeps the elements of one score in their order. *)
Lemma array_sort_stable (q : Q) (l : list A) :
  Forall good l ->
  forall out, array_sort comparefn l = Ok out ->
    List.filter (fun z => Qeq_bool (score z) q) out =
    List.filter (fun z => Qeq_bool (score z) q) l.
Proof.
  intros Hl out Hout.
  apply (sort_from_stable q l [] (Forall_nil_2 _) Hl (SSorted_nil _) out Hout).
Qed.

Lemma sort_from_app (l1 l2 sorted : list A) :
  sort_from comparefn sorted (l1 ++ l2) =
    (mid <-! sort_from comparefn sorted l1; sort_from comparefn mid l2).
Proof.
  revert sorted. induction l1 as [|x l1 IH]; intros sorted; [reflexivity|].
  cbn [app sort_from]. destruct (sort_insert comparefn x sorted); cbn [result_bind];
    [apply IH|reflexivity].
Qed.
End sort_stable.

Section more_sorting.
Import JS Sorter Store Api Contract Facts.

Lemma StronglySorted_weaken {A : Type} (R R' : relation A) (l : list A) :
  (forall x y, R x y -> R' x y) -> StronglySorted R l -> StronglySorted R' l.
Proof.
  intros Himpl. induction 1 as [|x l _ IH Hx]; constructor; [exact IH|].
  eapply Forall_impl; [exact Hx|]. intros y. apply Himpl.
Qed.

Lemma Qeq_bool_opp (a q : Q) : Qeq_bool (- a) (- q) = Qeq_bool a q.
Proof.
  destruct (Qeq_bool a q) eqn:H.
  - apply Qeq_bool_iff in H. apply Qeq_bool_iff. rewrite H. reflexivity.
  - apply Qeq_bool_neq in H. destruct (Qeq_bool (- a) (- q)) eqn:H'; [|reflexivity].
    apply Qeq_bool_iff in H'. exfalso. apply H. lra.
Qed.

Lemma get_comments_sorted (key : string) (d : disk) (sorted : list json) :
  Sorter.sort_comments (JStr key) (load_comments d) = Ok sorted ->
  get_comments (Some (JStr key)) d = (Envelope 200 "success" (Some (JArr sorted)), d).
Proof.
  intros Hsort. unfold get_comments.
  destruct (String.eqb_spec key "") as [->|Hkey].
  - cbn in Hsort. injection Hsort as <-. reflexivity.
  - assert (JS.or (Some (JStr key)) (JStr "") = JStr key) as ->.
    { cbn. apply String.eqb_neq in Hkey. rewrite Hkey. reflexivity. }
    rewrite Hsort. reflexivity.
Qed.

(** X16.  With a number for every rating, ties allowed, the two rating
    orders answer with rearrangements of the stored list, the first
    with ratings that never go down, the second with ratings that never
    go up, and both keep reviews of the same rating in their stored
    order. *)
Theorem rating_sorts_with_ties (d : disk) :
  (forall x, x ∈ load_comments d -> is_Some (rating_of x)) ->
  exists ascending descending,
    get_comments (Some (JStr "rating/asc")) d =
      (Envelope 200 "success" (Some (JArr ascending)), d) /\
    get_comments (Some (JStr "rating/desc")) d =
      (Envelope 200 "success" (Some (JArr descending)), d) /\
    ascending ≡ₚ load_comments d /\ descending ≡ₚ load_comments d /\
    StronglySorted (fun x y => (rating_key x <= rating_key y)%Q) ascending /\
    StronglySorted (fun x y => (rating_key y <= rating_key x)%Q) descending /\
    forall q, same_rating q ascending = same_rating q (load_comments d) /\
              same_rating q descending = same_rating q (load_comments d).
Proof.
  intros Hnum.
  assert (Hgood : Forall (fun x => is_Some (rating_of x)) (load_comments d))
    by (apply Forall_forall; exact Hnum).
  destruct (array_sort_sorted by_rating_asc rating_key _ by_rating_asc_score
              (load_comments d) Hgood) as (asc & Hasc & Hperm_asc & Hsorted_asc).
  destruct (array_sort_sorted by_rating_desc (fun x => - rating_key x)%Q _
              by_rating_desc_score (load_comments d) Hgood)
    as (desc & Hdesc & Hperm_desc & Hsorted_desc).
  exists asc, desc.
  split; [apply (get_comments_sorted "rating/asc"); exact Hasc|].
  split; [apply (get_comments_sorted "rating/desc"); exact Hdesc|].
  split; [exact Hperm_asc|]. split; [exact Hperm_desc|].
  split; [exact Hsorted_asc|].
  split.
  { eapply StronglySorted_weaken; [|exact Hsorted_desc].
    intros x y. unfold nondecreasing. intros. lra. }
  intros q. split.
  - apply (array_sort_stable by_rating_asc rating_key _ by_rating_asc_score q
             (load_comments d) Hgood asc Hasc).
  - pose proof (array_sort_stable by_rating_desc (fun x => - rating_key x)%Q _
                  by_rating_desc_score (- q)%Q (load_comments d) Hgood desc Hdesc) as Hstable.
    unfold same_rating.
    rewrite (List.filter_ext _ (fun z => Qeq_bool (- rating_key z) (- q))
               (fun z => eq_sym (Qeq_bool_opp (rating_key z) q)) desc).
    rewrite (List.filter_ext _ (fun z => Qeq_bool (- rating_key z) (- q))
               (fun z => eq_sym (Qeq_bool_opp (rating_key z) q)) (load_comments d)).
    exact Hstable.
Qed.

Lemma rating_sorts_with_ties_witness :
  exists descending,
    get_comments (Some (JStr "rating/desc")) with_ann =
      (Envelope 200 "success" (Some (JArr descending)), with_ann) /\
    same_rating 5 descending = same_rating 5 (ann :: defaultComments).
Proof.
  destruct (rating_sorts_with_ties with_ann) as (ascending & descending & _ & Hdesc & Hrest).
  - intros x Hx. change (load_comments with_ann) with (ann :: defaultComments) in Hx.
    unfold defaultComments in Hx.
    repeat (apply elem_of_cons in Hx as [->|Hx]; [eexists; reflexivity|]).
    apply elem_of_nil in Hx. contradiction.
  - exists descending. split; [exact Hdesc|].
    destruct Hrest as (_ & _ & _ & _ & Hties). apply (Hties 5%Q).
Defined.

Lemma time_text_score (x : json) :
  time_text x ->
  prop "time" (Some x) = Ok (field "time" x) /\
  getTimeScore (field "time" x) = Ok (recency x).
Proof.
  intros (m & -> & Htime). split; [reflexivity|].
  unfold recency. cbn [field].
  destruct Htime as [-> | (s & ->)]; [reflexivity|].
  rewrite getTimeScore_by_unit. reflexivity.
Qed.

Lemma negative_inject_Z (z : Z) : negative (Fin (inject_Z z)) = true <-> z < 0.
Proof.
  cbn [negative]. rewrite (Zlt_Qlt z 0). change (inject_Z 0) with 0%Q.
  destruct (inject_Z z ?= 0)%Q eqn:Hcmp.
  - apply Qeq_alt in Hcmp. split; [discriminate|]. intros Hz. lra.
  - apply Qlt_alt in Hcmp. tauto.
  - apply Qgt_alt in Hcmp. split; [discriminate|]. intros Hz. lra.
Qed.

Lemma by_time_newest_score (x y : json) :
  time_text x -> time_text y ->
  exists v, by_time_newest x y = Ok v /\
            (negative v = true <->
             (inject_Z (- recency x) < inject_Z (- recency y))%Q).
Proof.
  intros Hx Hy. unfold by_time_newest.
  destruct (time_text_score x Hx) as [Hpx Hsx]. destruct (time_text_score y Hy) as [Hpy Hsy].
  rewrite Hpx. cbn [result_bind]. rewrite Hsx. cbn [result_bind].
  rewrite Hpy. cbn [result_bind]. rewrite Hsy. cbn [result_bind].
  eexists. split; [reflexivity|]. rewrite negative_inject_Z, <- Zlt_Qlt. lia.
Qed.

(** X15.  When every stored review is an object whose time is a string
    or absent, GET /api/comments?sort=time/newest answers with a
    rearrangement of the stored list in which the recency score never
    goes up, and reviews of the same score keep their stored order. *)
Theorem time_newest_sorted (d : disk) :
  Forall time_text (load_comments d) ->
  exists sorted,
    get_comments (Some (JStr "time/newest")) d =
      (Envelope 200 "success" (Some (JArr sorted)), d) /\
    sorted ≡ₚ load_comments d /\
    StronglySorted (fun x y => recency y <= recency x) sorted /\
    forall z, same_recency z sorted = same_recency z (load_comments d).
Proof.
  intros Hgood.
  destruct (array_sort_sorted by_time_newest (fun x => inject_Z (- recency x)) _
              by_time_newest_score (load_comments d) Hgood)
    as (sorted & Hsort & Hperm & Hsorted).
  exists sorted.
  split; [apply (get_comments_sorted "time/newest"); exact Hsort|].
  split; [exact Hperm|]. split.
  { eapply StronglySorted_weaken; [|exact Hsorted].
    intros x y. unfold nondecreasing. rewrite <- Zle_Qle. lia. }
  intros z.
  pose proof (array_sort_stable by_time_newest (fun x => inject_Z (- recency x)) _
                by_time_newest_score (inject_Z (- z)) (load_comments d) Hgood sorted Hsort)
    as Hstable.
  assert (Hsame : forall x : json,
            (recency x =? z) = Qeq_bool (inject_Z (- recency x)) (inject_Z (- z))).
  { intros x. destruct (Z.eqb_spec (recency x) z) as [->|Hne].
    - symmetry. apply Qeq_bool_iff. reflexivity.
    - destruct (Qeq_bool _ _) eqn:Hq; [|reflexivity].
      apply Qeq_bool_iff in Hq. apply (proj1 (inject_Z_injective _ _)) in Hq. lia. }
  unfold same_recency.
  rewrite (List.filter_ext _ _ Hsame sorted), (List.filter_ext _ _ Hsame (load_comments d)).
  exact Hstable.
Qed.

Lemma time_newest_sorted_witness :
  exists sorted,
    get_comments (Some (JStr "time/newest")) with_ann =
      (Envelope 200 "success" (Some (JArr sorted)), with_ann) /\
    StronglySorted (fun x y => recency y <= recency x) sorted.
Proof.
  destruct (time_newest_sorted with_ann) as (sorted & Hanswer & _ & Hsorted & _).
  - change (load_comments with_ann) with (ann :: defaultComments). unfold defaultComments.
    repeat (apply Forall_cons; split;
            [eexists; split; [reflexivity|right; eexists; reflexivity]|]).
    apply Forall_nil_2.
  - exists sorted. split; [exact Hanswer|exact Hsorted].
Defined.

(** X17.  Any sort parameter other than the three keys (absent, empty,
    unknown, or not a string) leaves the order: GET /api/comments
    answers with the stored list as it is, and the disk is untouched. *)
Theorem get_comments_other_key (sort : value) (d : disk) :
  sort ∉ [Some (JStr "time/newest"); Some (JStr "rating/desc"); Some (JStr "rating/asc")] ->
  get_comments sort d = (Envelope 200 "success" (Some (JArr (load_comments d))), d).
Proof.
  intros Hother. unfold get_comments.
  assert (Hkeep : sort_comments (JS.or sort (JStr "")) (load_comments d)
                  = Ok (load_comments d)); [|rewrite Hkeep; reflexivity].
  destruct sort as [j|]; [|reflexivity]. cbn [JS.or].
  destruct (truthy j); [|reflexivity].
  destruct j as [| | |key| |]; try reflexivity.
  unfold sort_comments.
  destruct (String.eqb_spec key "time/newest") as [->|_]; [exfalso; apply Hother; in_list|].
  destruct (String.eqb_spec key "rating/desc") as [->|_]; [exfalso; apply Hother; in_list|].
  destruct (String.eqb_spec key "rating/asc") as [->|_]; [exfalso; apply Hother; in_list|].
  reflexivity.
Qed.

Lemma get_comments_other_key_witness :
  get_comments (Some (JStr "rating")) with_ann =
    (Envelope 200 "success" (Some (JArr (ann :: defaultComments))), with_ann).
Proof.
  apply (get_comments_other_key (Some (JStr "rating")) with_ann).
  intros Hin. repeat (apply elem_of_cons in Hin as [Hin|Hin]; [discriminate Hin|]).
  apply elem_of_nil in Hin. exact Hin.
Defined.

Lemma getTimeScore_without_includes (x : json) :
  time_without_includes x ->
  prop "time" (Some x) = Ok (field "time" x) /\
  getTimeScore (field "time" x) = Throw (NotAFunction "includes").
Proof.
  intros (m & t & -> & Ht & Htruthy & Hkind). split; [reflexivity|].
  cbn [field]. rewrite Ht. unfold getTimeScore. rewrite Htruthy. cbn [negb].
  destruct t; try contradiction; reflexivity.
Qed.

Lemma by_time_newest_throws (x y : json) :
  (time_without_includes x /\ time_text y) \/ (time_text x /\ time_without_includes y) ->
  by_time_newest x y = Throw (NotAFunction "includes").
Proof.
  unfold by_time_newest. intros [[Hx Hy]|[Hx Hy]].
  - destruct (getTimeScore_without_includes x Hx) as [Hp Hs].
    rewrite Hp. cbn [result_bind]. rewrite Hs. reflexivity.
  - destruct (time_text_score x Hx) as [Hp Hs].
    destruct (getTimeScore_without_includes y Hy) as [Hp' Hs'].
    rewrite Hp. cbn [result_bind]. rewrite Hs. cbn [result_bind].
    rewrite Hp'. cbn [result_bind]. rewrite Hs'. reflexivity.
Qed.

(** X18.  GET /api/comments has no [try]: when one stored review has a
    truthy time without an [includes] method (a number, say) among
    reviews with string times, and there are at least two reviews,
    sorting by time/newest throws "includes is not a function" out of
    the handler, and no envelope is sent. *)
Theorem time_newest_throws (d : disk) (before after : list json) (x : json) :
  load_comments d = (before ++ x :: after)%list ->
  time_without_includes x ->
  Forall time_text before -> Forall time_text after ->
  (before ++ after)%list <> [] ->
  get_comments (Some (JStr "time/newest")) d = (Failure (NotAFunction "includes"), d).
Proof.
  intros Hload Hx Hbefore Hafter Hmore. unfold get_comments. rewrite Hload.
  change (JS.or (Some (JStr "time/newest")) (JStr "")) with (JStr "time/newest").
  change (sort_comments (JStr "time/newest") ?l) with (array_sort by_time_newest l).
  assert (Hthrow : array_sort by_time_newest (before ++ x :: after)
                   = Throw (NotAFunction "includes")); [|rewrite Hthrow; reflexivity].
  unfold array_sort. rewrite sort_from_app.
  destruct (array_sort_sorted by_time_newest (fun x => inject_Z (- recency x)) _
              by_time_newest_score before Hbefore) as (sorted & Hsorted & Hperm & _).
  unfold array_sort in Hsorted. rewrite Hsorted. cbn [result_bind sort_from].
  destruct sorted as [|y sorted].
  - apply Permutation_nil_l in Hperm. subst before.
    destruct after as [|y after]; [contradiction|].
    apply Forall_cons in Hafter as [Hy _].
    cbn [sort_insert result_bind sort_from].
    rewrite by_time_newest_throws by (right; split; assumption). reflexivity.
  - assert (Hy : time_text y).
    { eapply Forall_forall; [exact Hbefore|]. rewrite <- Hperm. apply elem_of_cons. left.
      reflexivity. }
    cbn [sort_insert]. rewrite by_time_newest_throws by (left; split; assumption).
    reflexivity.
Qed.

Lemma time_newest_throws_witness :
  get_comments (Some (JStr "time/newest")) with_timed =
    (Failure (NotAFunction "includes"), with_timed).
Proof.
  apply (time_newest_throws with_timed [] defaultComments timed).
  - reflexivity.
  - do 2 eexists. split; [reflexivity|]. split; [reflexivity|]. split; [reflexivity|exact I].
  - apply Forall_nil_2.
  - unfold defaultComments.
    repeat (apply Forall_cons; split;
            [eexists; split; [reflexivity|right; eexists; reflexivity]|]).
    apply Forall_nil_2.
  - discriminate.
Defined.
End more_sorting.
